(** * serve-static: the request resolution pipeline of [index.js]

    A shallow embedding of the middleware of [index.js]: the path
    resolution cache ([getCachedPath]), the negotiation of precompressed
    siblings, the two directory listeners, and the listeners the
    middleware attaches to the stream that the [send] engine returns.

    Strings are modelled as the sequence of their UTF-8 bytes.  Every
    character the code inspects ([/], [.], the letters of [br] and
    [gzip]) is ASCII, so a test on a byte agrees with the test the
    source makes on a UTF-16 code unit. *)

From Stdlib Require Import ZArith NArith List String Ascii Bool Lia.
From stdpp Require Import base strings gmap.
Import ListNotations.

(** ** JavaScript values and the comparison [x < 500] *)

(** A JavaScript number, as far as a comparison can tell: not-a-number,
    the two infinities, or a finite value (status codes are integers). *)
Inductive JsNumber : Type :=
| NaN
| NegInfinity
| PosInfinity
| Finite (z : Z).

(** The primitive values a property such as [err.statusCode] may hold;
    [JsUndefined] is also what reading an absent property gives. *)
Inductive JsValue : Type :=
| JsUndefined
| JsNull
| JsBool (b : bool)
| JsNum (n : JsNumber)
| JsString (s : string).

(** [a < b] on numbers: false as soon as one side is [NaN]. *)
Definition number_lt (a b : JsNumber) : bool :=
  match a, b with
  | NaN, _ | _, NaN => false
  | Finite x, Finite y => (x <? y)%Z
  | NegInfinity, NegInfinity => false
  | NegInfinity, _ => true
  | PosInfinity, _ => false
  | Finite _, PosInfinity => true
  | Finite _, NegInfinity => false
  end.

(** ** Strings *)

Definition SLASH : ascii := ascii_of_nat 47.   (* 0x2f *)
Definition LF : string := String (ascii_of_nat 10) EmptyString.
Definition DQUOTE : string := String (ascii_of_nat 34) EmptyString.

(** [str.substr(i)]: what is left of [str] from index [i] on. *)
Fixpoint substr (i : nat) (str : string) : string :=
  match i, str with
  | O, _ => str
  | S _, EmptyString => EmptyString
  | S i', String _ rest => substr i' rest
  end.

(** [str.substr(-1)]: the last character, or the empty string. *)
Fixpoint substr_last (str : string) : string :=
  match str with
  | EmptyString => EmptyString
  | String c EmptyString => String c EmptyString
  | String _ rest => substr_last rest
  end.

(** [hay.indexOf(needle)], [-1] when [needle] does not occur. *)
Definition indexOf (hay needle : string) : Z :=
  match String.index 0 needle hay with
  | Some i => Z.of_nat i
  | None => (-1)%Z
  end.

(** [s.endsWith(suffix)]. *)
Definition endsWith (s suffix : string) : bool :=
  String.eqb (substr (String.length s - String.length suffix) s) suffix
  && (String.length suffix <=? String.length s).

(** A string counts as true in a condition unless it is empty. *)
Definition truthy (s : string) : bool := negb (String.eqb s "").

(** [Buffer.byteLength(s)] of a string held as its UTF-8 bytes. *)
Definition byteLength (s : string) : N := N.of_nat (String.length s).

(** ** The path resolution cache

    [pathCache] is a JavaScript [Map]: its entries are kept in insertion
    order, [set] on a new key appends, [set] on a present key replaces
    the value in place, and [keys().next().value] is the first key. *)

Definition Cache : Type := list (string * string).

Definition MAX_CACHE_SIZE : nat := 1000.

Definition map_has (k : string) (m : Cache) : bool :=
  List.existsb (fun e => String.eqb (fst e) k) m.

Definition map_get (k : string) (m : Cache) : option string :=
  match List.find (fun e => String.eqb (fst e) k) m with
  | Some e => Some (snd e)
  | None => None
  end.

Definition map_delete (k : string) (m : Cache) : Cache :=
  List.filter (fun e => negb (String.eqb (fst e) k)) m.

Fixpoint map_set (k v : string) (m : Cache) : Cache :=
  match m with
  | [] => [(k, v)]
  | (k', v') :: rest =>
      if String.eqb k' k then (k, v) :: rest else (k', v') :: map_set k v rest
  end.

Definition map_size (m : Cache) : nat := List.length m.

(** [m.keys().next().value]; [None] is the [undefined] of an empty map. *)
Definition map_first_key (m : Cache) : option string :=
  match m with
  | [] => None
  | (k, _) :: _ => Some k
  end.

Definition cacheKey (pathname root : string) : string :=
  root +:+ "::" +:+ pathname.

(** [getCachedPath(pathname, root)] on the module-wide [pathCache]:
    the returned path and the cache the call leaves behind. *)
Definition getCachedPath (pathname root : string) (pathCache : Cache)
  : string * Cache :=
  let key := cacheKey pathname root in
  if map_has key pathCache then
    match map_get key pathCache with
    | Some current =>
        (current, map_set key current (map_delete key pathCache))
    | None => (pathname, pathCache)   (* not reached: [has] was true *)
    end
  else
    let pathCache :=
      if MAX_CACHE_SIZE <=? map_size pathCache then
        match map_first_key pathCache with
        | Some firstKey => map_delete firstKey pathCache
        | None => pathCache
        end
      else pathCache in
    (pathname, map_set key pathname pathCache).

(** The cache after a sequence of calls [(pathname, root)], oldest first. *)
Definition run_calls (calls : list (string * string)) (c : Cache) : Cache :=
  List.fold_left (fun c call => snd (getCachedPath (fst call) (snd call) c)) calls c.

(** The caches the program can hold: [pathCache] starts as an empty
    [Map] and only [getCachedPath] writes to it. *)
Inductive reachable : Cache -> Prop :=
| reachable_empty : reachable []
| reachable_call pathname root c :
    reachable c -> reachable (snd (getCachedPath pathname root c)).

(** ** Requests, responses and the collaborators of the middleware *)

(** A parsed URL, as [parseurl] returns it ([null] fields are [None]). *)
Record Url : Type := {
  url_pathname : string;
  url_path : option string;
  url_search : option string;
  url_query : option string;
  url_href : option string
}.

Definition set_path (v : option string) (u : Url) : Url :=
  {| url_pathname := url_pathname u; url_path := v;
     url_search := url_search u; url_query := url_query u;
     url_href := url_href u |}.

Definition set_pathname (v : string) (u : Url) : Url :=
  {| url_pathname := v; url_path := url_path u;
     url_search := url_search u; url_query := url_query u;
     url_href := url_href u |}.

(** The request as the middleware reads it: [req.method], [parseUrl(req)],
    [parseUrl.original(req)] and [req.headers['accept-encoding']]. *)
Record Request : Type := {
  req_method : string;
  req_url : Url;
  req_originalUrl : Url;
  req_acceptEncoding : option string
}.

(** A header value: the code writes strings and numbers. *)
Inductive HeaderValue : Type :=
| HStr (s : string)
| HNum (n : N).

(** The response object.  Node keeps headers under their lower-cased
    name; [res_body] is what has been written, [res_finished] whether
    [end] was called. *)
Record Response : Type := {
  res_statusCode : N;
  res_headers : gmap string HeaderValue;
  res_body : string;
  res_finished : bool
}.

Definition lower_ascii (c : ascii) : ascii :=
  let n := nat_of_ascii c in
  if (65 <=? n) && (n <=? 90) then ascii_of_nat (n + 32) else c.

Fixpoint toLowerCase (s : string) : string :=
  match s with
  | EmptyString => EmptyString
  | String c rest => String (lower_ascii c) (toLowerCase rest)
  end.

Definition set_statusCode (code : N) (res : Response) : Response :=
  {| res_statusCode := code; res_headers := res_headers res;
     res_body := res_body res; res_finished := res_finished res |}.

Definition setHeader (name : string) (v : HeaderValue) (res : Response) : Response :=
  {| res_statusCode := res_statusCode res;
     res_headers := <[toLowerCase name := v]> (res_headers res);
     res_body := res_body res; res_finished := res_finished res |}.

Definition getHeader (name : string) (res : Response) : option HeaderValue :=
  res_headers res !! toLowerCase name.

(** [res.end(data)]; [res.end()] is [end_ None]. *)
Definition end_ (data : option string) (res : Response) : Response :=
  {| res_statusCode := res_statusCode res; res_headers := res_headers res;
     res_body := match data with
                 | Some d => res_body res +:+ d
                 | None => res_body res
                 end;
     res_finished := true |}.

(** The [stat] the engine passes to the [headers] listeners. *)
Record Stat : Type := { stat_size : N }.

(** An error emitted by the engine; [err_statusCode] is whatever
    [err.statusCode] evaluates to. *)
Record HttpError : Type := {
  err_statusCode : JsValue;
  err_message : string
}.

(** The argument of one call of [next]. *)
Inductive NextArg : Type :=
| NoArg
| WithError (err : HttpError).

(** The options of one middleware instance, after [serveStatic(root,
    options)] has read them. *)
Record Config : Type := {
  fallthrough : bool;
  redirect : bool;
  setHeaders : option (Response -> string -> Stat -> Response);
  root : string;
  preferPrecompressed : bool
}.

(** What the code takes from outside this repository: [path.join],
    [fs.existsSync] (the file system as it is during the request),
    [send.mime.lookup] ([None] when the call throws or gives nothing),
    [encodeurl], [escape-html], [url.format], and the conversion of a
    string to a number that [<] applies to a string operand. *)
Class Env : Type := {
  path_join : string -> string -> string;
  existsSync : string -> bool;
  mime_lookup : string -> option string;
  encodeUrl : string -> string;
  escapeHtml : string -> string;
  url_format : Url -> string;
  stringToNumber : string -> JsNumber
}.

(** The stream object of the engine, as the directory listeners use it:
    [this.req], and the answer of [this.hasTrailingSlash()], by which
    the engine tells whether the requested URL ends in a slash. *)
Record Stream : Type := {
  stream_req : Request;
  hasTrailingSlash : bool
}.

(** What one request has done so far: the response, the calls of [next]
    (oldest first), the [forwardError] variable of the closure, and the
    statuses passed to [this.error] of the stream. *)
Record ReqState : Type := {
  res : Response;
  nextCalls : list NextArg;
  forwardError : bool;
  streamErrors : list N
}.

Definition with_res (f : Response -> Response) (st : ReqState) : ReqState :=
  {| res := f (res st); nextCalls := nextCalls st;
     forwardError := forwardError st; streamErrors := streamErrors st |}.

Definition next (arg : NextArg) (st : ReqState) : ReqState :=
  {| res := res st; nextCalls := nextCalls st ++ [arg];
     forwardError := forwardError st; streamErrors := streamErrors st |}.

Definition set_forwardError (b : bool) (st : ReqState) : ReqState :=
  {| res := res st; nextCalls := nextCalls st;
     forwardError := b; streamErrors := streamErrors st |}.

(** [this.error(status)] on the stream. *)
Definition stream_error (status : N) (st : ReqState) : ReqState :=
  {| res := res st; nextCalls := nextCalls st;
     forwardError := forwardError st;
     streamErrors := streamErrors st ++ [status] |}.

(** ** Directory listeners *)

(** The index the loop of [collapseLeadingSlashes] stops at. *)
Fixpoint leadingSlashes (str : string) : nat :=
  match str with
  | String c rest =>
      if Ascii.eqb c SLASH then S (leadingSlashes rest) else 0
  | EmptyString => 0
  end.

Definition collapseLeadingSlashes (str : string) : string :=
  let i := leadingSlashes str in
  if 1 <? i then "/" +:+ substr i str else str.

Definition createHtmlDocument (title body : string) : string :=
  "<!DOCTYPE html>" +:+ LF +:+
  "<html lang=" +:+ DQUOTE +:+ "en" +:+ DQUOTE +:+ ">" +:+ LF +:+
  "<head>" +:+ LF +:+
  "<meta charset=" +:+ DQUOTE +:+ "utf-8" +:+ DQUOTE +:+ ">" +:+ LF +:+
  "<title>" +:+ title +:+ "</title>" +:+ LF +:+
  "</head>" +:+ LF +:+
  "<body>" +:+ LF +:+
  "<pre>" +:+ body +:+ "</pre>" +:+ LF +:+
  "</body>" +:+ LF +:+
  "</html>" +:+ LF.

(** The listener of [createNotFoundDirectoryListener]. *)
Definition createNotFoundDirectoryListener (this : Stream) (st : ReqState)
  : ReqState :=
  stream_error 404 st.

Section WithEnv.
Context {env : Env}.

(** The [Location] the redirect listener computes for a stream. *)
Definition redirectLocation (this : Stream) : string :=
  let originalUrl := req_originalUrl (stream_req this) in
  let originalUrl := set_path None originalUrl in
  let originalUrl :=
    set_pathname (collapseLeadingSlashes (url_pathname originalUrl +:+ "/"))
                 originalUrl in
  encodeUrl (url_format originalUrl).

(** The listener of [createRedirectDirectoryListener]. *)
Definition createRedirectDirectoryListener (this : Stream) (st : ReqState)
  : ReqState :=
  if hasTrailingSlash this then stream_error 404 st
  else
    let loc := redirectLocation this in
    let doc :=
      createHtmlDocument "Redirecting" ("Redirecting to " +:+ escapeHtml loc) in
    let st := with_res (set_statusCode 301) st in
    let st := with_res (setHeader "Content-Type" (HStr "text/html; charset=UTF-8")) st in
    let st := with_res (setHeader "Content-Length" (HNum (byteLength doc))) st in
    let st := with_res (setHeader "Content-Security-Policy" (HStr "default-src 'none'")) st in
    let st := with_res (setHeader "X-Content-Type-Options" (HStr "nosniff")) st in
    let st := with_res (setHeader "Location" (HStr loc)) st in
    with_res (end_ (Some doc)) st.

(** ** Negotiation of a precompressed sibling *)

(** The file the negotiation looks for siblings of: the index file for
    the empty path and for [/]. *)
Definition candidateOf (cachedPath : string) : string :=
  if String.eqb cachedPath "" || String.eqb cachedPath "/"
  then "/index.html" else cachedPath.

(** The block guarded by [preferPrecompressed]: the pair
    [(precompressed, encoding)] it assigns, [None] when it leaves both
    variables [null]. *)
Definition negotiate (cachedPath : string) (acceptEncoding : option string)
    (root : string) : option (string * string) :=
  let ae := match acceptEncoding with
            | Some h => if truthy h then h else ""
            | None => ""
            end in
  let acceptBr := negb (indexOf ae "br" =? -1)%Z in
  let acceptGzip := negb (indexOf ae "gzip" =? -1)%Z in
  let candidate := candidateOf cachedPath in
  let abs := path_join root candidate in
  if acceptBr && existsSync (abs +:+ ".br") then
    Some (candidate +:+ ".br", "br")
  else if acceptGzip && existsSync (abs +:+ ".gz") then
    Some (candidate +:+ ".gz", "gzip")
  else None.

(** ** The middleware *)

(** What the closure of one request keeps for its listeners: the path
    handed to [send], and the variables [precompressed] and [encoding],
    which are [null] together ([None]) or assigned together. *)
Record Served : Type := {
  sv_path : string;
  sv_negotiated : option (string * string)
}.

(** The middleware either returns at the method gate or pipes a stream. *)
Inductive Result : Type :=
| Returned (st : ReqState)
| Piped (st : ReqState) (sv : Served).

Definition initial (res0 : Response) (fwd : bool) : ReqState :=
  {| res := res0; nextCalls := []; forwardError := fwd; streamErrors := [] |}.

(** The function [serveStatic(root, options)] returns, up to the call of
    [stream.pipe(res)]. *)
Definition serveStatic (cfg : Config) (req : Request) (res0 : Response)
    (pathCache : Cache) : Cache * Result :=
  if negb (String.eqb (req_method req) "GET")
     && negb (String.eqb (req_method req) "HEAD") then
    if fallthrough cfg then
      (pathCache, Returned (next NoArg (initial res0 false)))
    else
      let st := initial res0 false in
      let st := with_res (set_statusCode 405) st in
      let st := with_res (setHeader "Allow" (HStr "GET, HEAD")) st in
      let st := with_res (setHeader "Content-Length" (HStr "0")) st in
      (pathCache, Returned (with_res (end_ None) st))
  else
    let forwardError := negb (fallthrough cfg) in
    let originalUrl := req_originalUrl req in
    let path := url_pathname (req_url req) in
    let path :=
      if String.eqb path "/"
         && negb (String.eqb (substr_last (url_pathname originalUrl)) "/")
      then "" else path in
    let '(cachedPath, pathCache) := getCachedPath path (root cfg) pathCache in
    let negotiated :=
      if preferPrecompressed cfg
      then negotiate cachedPath (req_acceptEncoding req) (root cfg)
      else None in
    let sent := match negotiated with
                | Some (precompressed, _) =>
                    if truthy precompressed then precompressed else cachedPath
                | None => cachedPath
                end in
    (pathCache,
     Piped (initial res0 forwardError)
           {| sv_path := sent; sv_negotiated := negotiated |}).

(** [precompressed.replace(/\.(br|gz)$/, '')]. *)
Definition stripCompressedSuffix (p : string) : string :=
  if endsWith p ".br" || endsWith p ".gz"
  then String.substring 0 (String.length p - 3) p
  else p.

(** The [headers] listener. *)
Definition onHeaders (cfg : Config) (sv : Served) (filePath : string)
    (stat : Stat) (r : Response) : Response :=
  let r := setHeader "Vary" (HStr "Accept-Encoding") r in
  let r :=
    match sv_negotiated sv with
    | Some (precompressed, encoding) =>
        if truthy precompressed && truthy encoding then
          let originalPath := stripCompressedSuffix precompressed in
          let r :=
            match mime_lookup originalPath with
            | Some type =>
                if truthy type then setHeader "Content-Type" (HStr type) r
                else r
            | None => r
            end in
          let r := setHeader "Content-Encoding" (HStr encoding) r in
          setHeader "Content-Length" (HNum (stat_size stat)) r
        else r
    | None => r
    end in
  match setHeaders cfg with
  | Some callback => callback r filePath stat
  | None => r
  end.

(** The [file] listener. *)
Definition onFile (st : ReqState) : ReqState := set_forwardError true st.

(** [ToNumber] on a primitive value. *)
Definition toNumber (v : JsValue) : JsNumber :=
  match v with
  | JsUndefined => NaN
  | JsNull => Finite 0
  | JsBool b => Finite (if b then 1 else 0)
  | JsNum n => n
  | JsString s => stringToNumber s
  end.

(** [v < n] for a number [n]: the comparison is numeric, whatever [v]. *)
Definition lessThan (v : JsValue) (n : JsNumber) : bool :=
  number_lt (toNumber v) n.

(** The [error] listener. *)
Definition error (err : HttpError) (st : ReqState) : ReqState :=
  if forwardError st || negb (lessThan (err_statusCode err) (Finite 500)) then
    next (WithError err) st
  else
    next NoArg st.

(** The notifications of the engine. *)
Inductive Event : Type :=
| Directory
| Headers (filePath : string) (stat : Stat)
| File
| Error (err : HttpError).

(** One notification reaches the listeners the middleware attached. *)
Definition emit (cfg : Config) (sv : Served) (this : Stream) (ev : Event)
    (st : ReqState) : ReqState :=
  match ev with
  | Directory =>
      if redirect cfg then createRedirectDirectoryListener this st
      else createNotFoundDirectoryListener this st
  | Headers filePath stat => with_res (onHeaders cfg sv filePath stat) st
  | File => if fallthrough cfg then onFile st else st
  | Error err => error err st
  end.

(** The notifications of one request, oldest first. *)
Definition emit_all (cfg : Config) (sv : Served) (this : Stream)
    (evs : list Event) (st : ReqState) : ReqState :=
  List.fold_left (fun st ev => emit cfg sv this ev st) evs st.

End WithEnv.

(** ** The pool of options objects *)







(** ** The exported function [serveStatic(root, options)] *)

(** A value passed as [root] or as an option: a primitive, a function
    (called as [setHeaders] is: response, path, stat), or another
    object. *)
Inductive Argument : Type :=
| Prim (v : JsValue)
| Func (f : Response -> string -> Stat -> Response)
| Obj.

(** Whether a value counts as true in a condition. *)
Definition toBoolean (v : JsValue) : bool :=
  match v with
  | JsUndefined | JsNull => false
  | JsBool b => b
  | JsNum NaN => false
  | JsNum (Finite z) => negb (z =? 0)%Z
  | JsNum _ => true
  | JsString s => truthy s
  end.

Definition arg_truthy (a : Argument) : bool :=
  match a with
  | Prim v => toBoolean v
  | Func _ | Obj => true
  end.

(** [a === b] for a boolean literal [b]. *)
Definition is_bool (b : bool) (a : Argument) : bool :=
  match a with
  | Prim (JsBool b') => Bool.eqb b' b
  | _ => false
  end.

(** A value passed as [options] that counts as true.  The first six
    fields are the properties the function reads from it; an absent
    property reads as [undefined].  [opt_is_object] is false for a
    primitive (a number, a string, [true]), which [Object.create] does
    not take as a prototype.  [opt_maxage_readonly] and
    [opt_root_readonly] say that the object holds a [maxage], or a
    [root], property that cannot be assigned (as every property of a
    frozen object), in which case the assignment to [opts], which
    inherits from it, throws in strict mode. *)
Record Options : Type := {
  opt_fallthrough : Argument;
  opt_redirect : Argument;
  opt_setHeaders : Argument;
  opt_maxage : Argument;
  opt_maxAge : Argument;
  opt_preferPrecompressed : Argument;
  opt_is_object : bool;
  opt_maxage_readonly : bool;
  opt_root_readonly : bool
}.

(** What [Object.create(null)] reads as when [options] is not given,
    or counts as false. *)
Definition no_options : Options :=
  {| opt_fallthrough := Prim JsUndefined; opt_redirect := Prim JsUndefined;
     opt_setHeaders := Prim JsUndefined; opt_maxage := Prim JsUndefined;
     opt_maxAge := Prim JsUndefined;
     opt_preferPrecompressed := Prim JsUndefined;
     opt_is_object := true; opt_maxage_readonly := false;
     opt_root_readonly := false |}.

(** How the call can fail: a [TypeError] the function throws itself,
    with its message; the [TypeError] of [Object.create] for a
    prototype that is neither an object nor [null]; the [TypeError] of
    an assignment, in strict mode, to a property that is read-only. *)
Inductive Failure : Type :=
| TypeError (message : string)
| NotAnObject
| ReadOnly (property : string).

(** What the returned middleware closes over: the flags and callback
    ([mw_config]) and [opts.maxage] as handed to the engine. *)
Record Middleware : Type := {
  mw_config : Config;
  mw_maxage : Argument
}.

(** [a || b]. *)
Definition js_or (a b : Argument) : Argument :=
  if arg_truthy a then a else b.

(** [serveStatic(root, options)]: how it fails, or the middleware it
    returns.  [resolve] is [path.resolve]; [options] is [None] when the
    argument is not given or counts as false ([options || null]). *)
Definition createMiddleware (resolve : string -> string) (root : Argument)
    (options : option Options) : Failure + Middleware :=
  if negb (arg_truthy root) then inl (TypeError "root path required")
  else
    match root with
    | Prim (JsString rootPath) =>
        let opts := match options with Some o => o | None => no_options end in
        if negb (opt_is_object opts) then inl NotAnObject else
        let fallthrough := negb (is_bool false (opt_fallthrough opts)) in
        let redirect := negb (is_bool false (opt_redirect opts)) in
        let setHeaders := opt_setHeaders opts in
        let maxage := js_or (js_or (opt_maxage opts) (opt_maxAge opts))
                            (Prim (JsNum (Finite 0))) in
        let preferPrecompressed := is_bool true (opt_preferPrecompressed opts) in
        let ok callback :=
          if opt_maxage_readonly opts then inl (ReadOnly "maxage")
          else if opt_root_readonly opts then inl (ReadOnly "root")
          else
            inr {| mw_config :=
                     {| fallthrough := fallthrough; redirect := redirect;
                        setHeaders := callback; root := resolve rootPath;
                        preferPrecompressed := preferPrecompressed |};
                   mw_maxage := maxage |} in
        match setHeaders with
        | Func f => ok (Some f)
        | other =>
            if arg_truthy other
            then inl (TypeError "option setHeaders must be function")
            else ok None
        end
    | _ => inl (TypeError "root path must be a string")
    end.

(** The path the middleware derives from the request before it asks the
    cache: the pathname, or the empty path at the mount point. *)
Definition derivedPath (req : Request) : string :=
  let path := url_pathname (req_url req) in
  if String.eqb path "/"
     && negb (String.eqb (substr_last (url_pathname (req_originalUrl req))) "/")
  then "" else path.

(** The number of [error] notifications among [evs]. *)
Definition count_errors (evs : list Event) : nat :=
  List.length (List.filter (fun ev => match ev with Error _ => true | _ => false end) evs).

(** The number of [directory] notifications among [evs]. *)
Definition count_directory (evs : list Event) : nat :=
  List.length (List.filter (fun ev => match ev with Directory => true | _ => false end) evs).

(** ** Notions the statements are written with *)

Definition keys (m : Cache) : list string := List.map fst m.

(** The invariant of [pathCache]: no key twice, at most
    [MAX_CACHE_SIZE] entries. *)
Definition cache_inv (c : Cache) : Prop :=
  List.NoDup (keys c) /\ List.length c <= MAX_CACHE_SIZE.

(** All entries of the cache were stored under [root]. *)
Definition single_root (root : string) (c : Cache) : Prop :=
  forall k v, In (k, v) c -> k = cacheKey v root.

(** A run of [k] slashes. *)
Fixpoint slashes (k : nat) : string :=
  match k with
  | O => EmptyString
  | S k' => String SLASH (slashes k')
  end.

(** [s] does not begin with a slash. *)
Definition no_leading_slash (s : string) : Prop :=
  match s with
  | String c _ => c <> SLASH
  | EmptyString => True
  end.

Definition is_file (ev : Event) : bool :=
  match ev with
  | File => true
  | _ => false
  end.

(** [token] occurs somewhere in [h]. *)
Definition contains (h token : string) : Prop :=
  exists pre post, h = pre +:+ token +:+ post.

(** The response once the built-in headers of the [headers] listener are
    set, before the [setHeaders] option is called. *)
Definition builtinHeaders {env : Env} (sv : Served) (stat : Stat)
    (r : Response) : Response :=
  onHeaders {| fallthrough := true; redirect := true; setHeaders := None;
               root := ""; preferPrecompressed := false |} sv "" stat r.

(** ** Concrete collaborators and inputs, used to run the model *)

(** A file system with [app.js.br] and [app.js.gz] under [/var/www];
    [url.format] prints the pathname and the query. *)
Definition demo_env : Env := {|
  path_join := fun a b => a +:+ b;
  existsSync := fun p =>
    String.eqb p "/var/www/app.js.br" || String.eqb p "/var/www/app.js.gz";
  mime_lookup := fun p =>
    if endsWith p ".js" then Some "application/javascript" else None;
  encodeUrl := fun s => s;
  escapeHtml := fun s => s;
  url_format := fun u =>
    url_pathname u +:+ match url_search u with Some s => s | None => "" end;
  stringToNumber := fun _ => NaN
|}.

Definition fresh_response : Response :=
  {| res_statusCode := 200; res_headers := ∅; res_body := "";
     res_finished := false |}.

Definition plain_url (pathname : string) : Url :=
  {| url_pathname := pathname; url_path := Some pathname;
     url_search := None; url_query := None; url_href := Some pathname |}.

Definition demo_request (method pathname : string) (ae : option string)
  : Request :=
  {| req_method := method; req_url := plain_url pathname;
     req_originalUrl := plain_url pathname; req_acceptEncoding := ae |}.

Definition demo_config (ft rd pre : bool) (root : string) : Config :=
  {| fallthrough := ft; redirect := rd; setHeaders := None; root := root;
     preferPrecompressed := pre |}.

Definition demo_stream (pathname : string) (slash : bool) : Stream :=
  {| stream_req := demo_request "GET" pathname None;
     hasTrailingSlash := slash |}.

Definition http_error (status : JsValue) : HttpError :=
  {| err_statusCode := status; err_message := "" |}.

(** Three decimal digits of [i]: distinct names for [i < 1000]. *)
Definition digit (d : nat) : ascii := ascii_of_nat (48 + d).

Definition numbered (i : nat) : string :=
  String SLASH
    (String (digit (i / 100))
       (String (digit ((i / 10) mod 10))
          (String (digit (i mod 10)) EmptyString))).

(** The cache after the paths [/000] ... [/999] were asked of [/srv]. *)
Definition full_cache : Cache :=
  run_calls (List.map (fun i => (numbered i, "/srv")) (List.seq 0 1000)) [].

(** Two middleware instances share [pathCache]: one serves the
    directory [/srv/a::/b], the other serves [/srv/a]. *)
Definition instance_one : Config := demo_config true true false "/srv/a::/b".
Definition instance_two : Config := demo_config true true false "/srv/a".

(** The cache after [GET /c] was served by [instance_one]. *)
Definition cache_after_first : Cache :=
  fst (serveStatic (env := demo_env) instance_one
         (demo_request "GET" "/c" None) fresh_response []).

(** A [setHeaders] option that overrides [Content-Type]. *)
Definition demo_setHeaders (r : Response) (filePath : string) (stat : Stat)
  : Response :=
  setHeader "content-type" (HStr "text/plain") r.

(** One instance under fall-through, serving [/var/www]. *)
Definition www : Config := demo_config true true false "/var/www".

(** The same with [preferPrecompressed] and a [setHeaders] option. *)
Definition www_precompressed : Config :=
  {| fallthrough := true; redirect := true;
     setHeaders := Some demo_setHeaders; root := "/var/www";
     preferPrecompressed := true |}.

Definition served_plain (path : string) : Served :=
  {| sv_path := path; sv_negotiated := None |}.

Definition served_brotli : Served :=
  {| sv_path := "/app.js.br"; sv_negotiated := Some ("/app.js.br", "br") |}.

(** Options that look like switches but are not the values [false] and
    [true]: fall-through stays on, precompressed serving stays off. *)
Definition demo_options : Options :=
  {| opt_fallthrough := Prim (JsNum (Finite 0));
     opt_redirect := Prim (JsBool false);
     opt_setHeaders := Func demo_setHeaders;
     opt_maxage := Prim JsNull;
     opt_maxAge := Prim (JsNum (Finite 3600));
     opt_preferPrecompressed := Prim (JsString "yes");
     opt_is_object := true; opt_maxage_readonly := false;
     opt_root_readonly := false |}.

(** [Object.freeze({ maxage: 1000 })]: every property is read-only. *)
Definition frozen_options : Options :=
  {| opt_fallthrough := Prim JsUndefined; opt_redirect := Prim JsUndefined;
     opt_setHeaders := Prim JsUndefined;
     opt_maxage := Prim (JsNum (Finite 1000));
     opt_maxAge := Prim JsUndefined;
     opt_preferPrecompressed := Prim JsUndefined;
     opt_is_object := true; opt_maxage_readonly := true;
     opt_root_readonly := false |}.

(** The number [5] passed as [options]. *)
Definition primitive_options : Options :=
  {| opt_fallthrough := Prim JsUndefined; opt_redirect := Prim JsUndefined;
     opt_setHeaders := Prim JsUndefined; opt_maxage := Prim JsUndefined;
     opt_maxAge := Prim JsUndefined;
     opt_preferPrecompressed := Prim JsUndefined;
     opt_is_object := false; opt_maxage_readonly := false;
     opt_root_readonly := false |}.

(** The middleware [serveStatic('/var/www', demo_options)] returns when
    [path.resolve] leaves the root as it is. *)
Definition demo_middleware : Middleware :=
  {| mw_config :=
       {| fallthrough := true; redirect := false;
          setHeaders := Some demo_setHeaders; root := "/var/www";
          preferPrecompressed := false |};
     mw_maxage := Prim (JsNum (Finite 3600)) |}.


(** An instance under the not-found policy, without fall-through. *)
Definition strict : Config := demo_config false false false "/var/www".

(** ** The path resolution cache: what every call preserves *)

Lemma map_has_get k (m : Cache) :
  map_has k m = true <-> exists v, map_get k m = Some v.
Proof.
  unfold map_has, map_get. induction m as [|[k' v'] m IH]; simpl.
  - split; [discriminate | intros [v Hv]; discriminate].
  - destruct (String.eqb k' k); simpl; [split; eauto | exact IH].
Qed.

Lemma map_get_In k v (m : Cache) : map_get k m = Some v -> In (k, v) m.
Proof.
  unfold map_get. induction m as [|[k' v'] m IH]; simpl; [discriminate|].
  destruct (String.eqb k' k) eqn:E; simpl.
  - apply String.eqb_eq in E. intros [= <-]. left. now subst.
  - intros H. right. now apply IH.
Qed.

Lemma map_get_None_keys k (m : Cache) :
  map_get k m = None <-> ~ In k (keys m).
Proof.
  unfold map_get, keys. induction m as [|[k' v'] m IH]; simpl.
  - split; [tauto | reflexivity].
  - destruct (String.eqb k' k) eqn:E; simpl.
    + apply String.eqb_eq in E. split; [discriminate | tauto].
    + apply String.eqb_neq in E. rewrite IH. tauto.
Qed.

Lemma keys_map_delete k k' (m : Cache) :
  In k' (keys (map_delete k m)) <-> k' <> k /\ In k' (keys m).
Proof.
  unfold keys, map_delete. induction m as [|[k0 v0] m IH]; simpl; [tauto|].
  destruct (String.eqb k0 k) eqn:E; simpl.
  - apply String.eqb_eq in E. subst. rewrite IH. intuition congruence.
  - apply String.eqb_neq in E. rewrite IH. intuition congruence.
Qed.

Lemma map_delete_absent k (m : Cache) :
  ~ In k (keys m) -> map_delete k m = m.
Proof.
  unfold keys, map_delete. induction m as [|[k0 v0] m IH]; simpl; [reflexivity|].
  intros H. destruct (String.eqb k0 k) eqn:E; simpl.
  - apply String.eqb_eq in E. tauto.
  - f_equal. apply IH. tauto.
Qed.

Lemma NoDup_keys_map_delete k (m : Cache) :
  List.NoDup (keys m) -> List.NoDup (keys (map_delete k m)).
Proof.
  induction m as [|[k0 v0] m IH]; simpl; [trivial|].
  intros H. inversion H as [|? ? Hnotin Hnd]; subst.
  destruct (String.eqb k0 k); simpl; [now apply IH|].
  constructor; [|now apply IH].
  intros Hin. apply keys_map_delete in Hin. tauto.
Qed.

Lemma length_map_delete_present k (m : Cache) :
  List.NoDup (keys m) -> In k (keys m) ->
  S (List.length (map_delete k m)) = List.length m.
Proof.
  induction m as [|[k0 v0] m IH]; simpl; [tauto|].
  intros H Hin. inversion H as [|? ? Hnotin Hnd]; subst.
  destruct (String.eqb k0 k) eqn:E; simpl.
  - apply String.eqb_eq in E. subst.
    fold (map_delete k m). now rewrite map_delete_absent.
  - apply String.eqb_neq in E. f_equal. apply IH; [assumption|].
    destruct Hin; [contradiction | assumption].
Qed.

Lemma map_set_fresh k v (m : Cache) :
  ~ In k (keys m) -> map_set k v m = m ++ [(k, v)].
Proof.
  induction m as [|[k0 v0] m IH]; simpl; [reflexivity|].
  intros H. destruct (String.eqb k0 k) eqn:E.
  - apply String.eqb_eq in E. tauto.
  - f_equal. apply IH. tauto.
Qed.

Lemma keys_app (m1 m2 : Cache) : keys (m1 ++ m2) = keys m1 ++ keys m2.
Proof. unfold keys. apply List.map_app. Qed.

Lemma NoDup_keys_snoc k v (m : Cache) :
  List.NoDup (keys m) -> ~ In k (keys m) -> List.NoDup (keys (m ++ [(k, v)])).
Proof.
  induction m as [|[k0 v0] m IH]; simpl; intros Hnd Hnotin.
  - repeat constructor. simpl. tauto.
  - inversion Hnd as [|? ? Hk0 Hnd']; subst. constructor.
    + rewrite keys_app. rewrite List.in_app_iff. simpl. intuition congruence.
    + apply IH; tauto.
Qed.

(** A hit returns the stored value and moves the entry to the end (it
    becomes the most recently touched one). *)
Lemma getCachedPath_hit pathname root c v :
  map_get (cacheKey pathname root) c = Some v ->
  getCachedPath pathname root c
  = (v, map_delete (cacheKey pathname root) c ++ [(cacheKey pathname root, v)]).
Proof.
  intros Hget. unfold getCachedPath.
  assert (Hhas : map_has (cacheKey pathname root) c = true)
    by (apply map_has_get; eauto).
  rewrite Hhas, Hget. f_equal. apply map_set_fresh.
  intros Hin. apply keys_map_delete in Hin. tauto.
Qed.

(** A miss below capacity appends the new entry. *)
Lemma getCachedPath_miss_room pathname root c :
  map_get (cacheKey pathname root) c = None ->
  List.length c < MAX_CACHE_SIZE ->
  getCachedPath pathname root c
  = (pathname, c ++ [(cacheKey pathname root, pathname)]).
Proof.
  intros Hget Hlen. unfold getCachedPath.
  destruct (map_has (cacheKey pathname root) c) eqn:Hhas.
  - apply map_has_get in Hhas as [v Hv]. congruence.
  - unfold map_size. destruct (Nat.leb_spec MAX_CACHE_SIZE (List.length c)); [lia|].
    f_equal. apply map_set_fresh. now apply map_get_None_keys.
Qed.

(** A miss at capacity drops the first entry, the one touched longest
    ago, and appends the new one. *)
Lemma getCachedPath_miss_full pathname root k0 v0 rest :
  List.NoDup (keys ((k0, v0) :: rest)) ->
  map_get (cacheKey pathname root) ((k0, v0) :: rest) = None ->
  MAX_CACHE_SIZE <= List.length ((k0, v0) :: rest) ->
  getCachedPath pathname root ((k0, v0) :: rest)
  = (pathname, rest ++ [(cacheKey pathname root, pathname)]).
Proof.
  intros Hnd Hget Hlen. unfold getCachedPath.
  destruct (map_has (cacheKey pathname root) ((k0, v0) :: rest)) eqn:Hhas.
  - apply map_has_get in Hhas as [v Hv]. congruence.
  - unfold map_size.
    destruct (Nat.leb_spec MAX_CACHE_SIZE (List.length ((k0, v0) :: rest))); [|lia].
    apply map_get_None_keys in Hget.
    inversion Hnd as [|? ? Hnotin Hnd']; subst.
    assert (Hdel : map_delete k0 ((k0, v0) :: rest) = rest).
    { unfold map_delete. simpl. rewrite String.eqb_refl. simpl.
      now apply map_delete_absent. }
    cbn [map_first_key]. rewrite Hdel. f_equal. apply map_set_fresh.
    simpl in Hget. tauto.
Qed.

(** Every call keeps the keys distinct and the size within the bound. *)
Lemma getCachedPath_inv pathname root c :
  cache_inv c -> cache_inv (snd (getCachedPath pathname root c)).
Proof.
  intros [Hnd Hlen]. unfold cache_inv.
  destruct (map_get (cacheKey pathname root) c) as [v|] eqn:Hget.
  - rewrite (getCachedPath_hit _ _ _ _ Hget). cbn [snd].
    assert (Hin : In (cacheKey pathname root) (keys c)).
    { apply map_get_In in Hget. unfold keys.
      change (cacheKey pathname root) with (fst (cacheKey pathname root, v)).
      now apply List.in_map. }
    pose proof (length_map_delete_present _ _ Hnd Hin) as Hl.
    split.
    + apply NoDup_keys_snoc; [now apply NoDup_keys_map_delete|].
      intros Hx. apply keys_map_delete in Hx. tauto.
    + rewrite List.length_app. simpl. lia.
  - destruct (Nat.lt_ge_cases (List.length c) MAX_CACHE_SIZE) as [Hroom|Hfull].
    + rewrite (getCachedPath_miss_room _ _ _ Hget Hroom). cbn [snd].
      apply map_get_None_keys in Hget. split.
      * now apply NoDup_keys_snoc.
      * rewrite List.length_app. simpl. lia.
    + destruct c as [|[k0 v0] rest]; [unfold MAX_CACHE_SIZE in Hfull; simpl in Hfull; lia|].
      rewrite (getCachedPath_miss_full _ _ _ _ _ Hnd Hget Hfull). cbn [snd].
      apply map_get_None_keys in Hget.
      inversion Hnd as [|? ? Hnotin Hnd']; subst. split.
      * apply NoDup_keys_snoc; [assumption | simpl in Hget; tauto].
      * rewrite List.length_app. simpl in *. lia.
Qed.

(** The size of the cache never exceeds [MAX_CACHE_SIZE]. *)
Lemma reachable_inv c : reachable c -> cache_inv c.
Proof.
  induction 1 as [|pathname root c _ IH].
  - split; [constructor | simpl; lia].
  - now apply getCachedPath_inv.
Qed.

(** Every stored value is a pathname, kept under a key built from it. *)
Lemma reachable_entries c :
  reachable c -> forall k v, In (k, v) c -> exists root, k = cacheKey v root.
Proof.
  induction 1 as [|pathname root c _ IH]; [intros k v []|].
  intros k v Hin.
  destruct (map_get (cacheKey pathname root) c) as [w|] eqn:Hget.
  - rewrite (getCachedPath_hit _ _ _ _ Hget) in Hin. cbn [snd] in Hin.
    apply List.in_app_iff in Hin as [Hin|[[= <- <-]|[]]].
    + apply IH. unfold map_delete in Hin.
      now apply List.filter_In in Hin as [Hin _].
    + apply IH. now apply map_get_In.
  - assert (Hsub : forall e, In e (snd (getCachedPath pathname root c)) ->
                             In e c \/ e = (cacheKey pathname root, pathname)).
    { intros e. unfold getCachedPath.
      destruct (map_has (cacheKey pathname root) c) eqn:Hhas.
      { apply map_has_get in Hhas as [w Hw]. congruence. }
      cbn [snd]. intros He.
      set (c' := if MAX_CACHE_SIZE <=? map_size c
                 then match map_first_key c with
                      | Some firstKey => map_delete firstKey c
                      | None => c
                      end
                 else c) in *.
      assert (Hc' : forall x, In x c' -> In x c).
      { subst c'. intros x. destruct (MAX_CACHE_SIZE <=? map_size c); [|trivial].
        destruct (map_first_key c); [|trivial].
        unfold map_delete. intros Hx. now apply List.filter_In in Hx as [Hx _]. }
      assert (Hnot : ~ In (cacheKey pathname root) (keys c')).
      { intros Hk. apply map_get_None_keys in Hget. apply Hget.
        unfold keys in *. apply List.in_map_iff in Hk as [x [Hx1 Hx2]].
        apply List.in_map_iff. exists x. auto. }
      rewrite (map_set_fresh _ _ _ Hnot) in He.
      apply List.in_app_iff in He as [He|[<-|[]]]; auto. }
    destruct (Hsub _ Hin) as [Hold|[= -> ->]]; [now apply IH | now exists root].
Qed.

Lemma cacheKey_inj_pathname root p q :
  cacheKey p root = cacheKey q root -> p = q.
Proof.
  unfold cacheKey. induction root as [|a root IH]; simpl.
  - intros H. now injection H.
  - intros H. injection H as H. now apply IH.
Qed.

(** While one root only is in use, the cache is transparent: the call
    returns the pathname it was given. *)
Lemma getCachedPath_single_root pathname root c :
  single_root root c ->
  fst (getCachedPath pathname root c) = pathname
  /\ single_root root (snd (getCachedPath pathname root c)).
Proof.
  intros Hsr.
  destruct (map_get (cacheKey pathname root) c) as [w|] eqn:Hget.
  - rewrite (getCachedPath_hit _ _ _ _ Hget). cbn [fst snd].
    pose proof (Hsr _ _ (map_get_In _ _ _ Hget)) as Hk.
    apply cacheKey_inj_pathname in Hk. subst w. split; [reflexivity|].
    intros k v Hin. apply List.in_app_iff in Hin as [Hin|[[= <- <-]|[]]].
    + apply Hsr. unfold map_delete in Hin.
      now apply List.filter_In in Hin as [Hin _].
    + reflexivity.
  - unfold getCachedPath.
    destruct (map_has (cacheKey pathname root) c) eqn:Hhas.
    { apply map_has_get in Hhas as [w Hw]. congruence. }
    cbn [fst snd]. split; [reflexivity|].
    set (c' := if MAX_CACHE_SIZE <=? map_size c
               then match map_first_key c with
                    | Some firstKey => map_delete firstKey c
                    | None => c
                    end
               else c).
    assert (Hc' : forall x, In x c' -> In x c).
    { subst c'. intros x. destruct (MAX_CACHE_SIZE <=? map_size c); [|trivial].
      destruct (map_first_key c); [|trivial].
      unfold map_delete. intros Hx. now apply List.filter_In in Hx as [Hx _]. }
    assert (Hnot : ~ In (cacheKey pathname root) (keys c')).
    { intros Hk. apply map_get_None_keys in Hget. apply Hget.
      unfold keys in *. apply List.in_map_iff in Hk as [x [Hx1 Hx2]].
      apply List.in_map_iff. exists x. auto. }
    rewrite (map_set_fresh _ _ _ Hnot).
    intros k v Hin. apply List.in_app_iff in Hin as [Hin|[[= <- <-]|[]]]; auto.
Qed.

(** At capacity the entry touched longest ago goes: [/000] was asked
    first, and a new path evicts it and nothing else. *)
Example full_cache_evicts_oldest :
  let c := snd (getCachedPath "/new" "/srv" full_cache) in
  List.length full_cache = 1000 /\ List.length c = 1000
  /\ map_has (cacheKey "/000" "/srv") c = false
  /\ map_has (cacheKey "/001" "/srv") c = true
  /\ map_first_key c = Some (cacheKey "/001" "/srv").
Proof. vm_compute. repeat split. Qed.

(** A read refreshes recency: once [/000] was read again, the next
    insertion at capacity evicts [/001] and keeps [/000]. *)
Example full_cache_read_refreshes :
  let c1 := snd (getCachedPath "/000" "/srv" full_cache) in
  let c2 := snd (getCachedPath "/new" "/srv" c1) in
  fst (getCachedPath "/000" "/srv" full_cache) = "/000"
  /\ map_has (cacheKey "/000" "/srv") c2 = true
  /\ map_has (cacheKey "/001" "/srv") c2 = false
  /\ List.length c2 = 1000.
Proof. vm_compute. repeat split. Qed.

(** C4: two roots and pathnames whose keys coincide.  After
    [instance_one] served [/c], the call for [/b::/c] under [/srv/a] does
    not return its pathname but [/c], and that is the path
    [instance_two] hands to the engine; on an empty cache the same
    request is handed [/b::/c]. *)
Theorem getCachedPath_key_collision :
  reachable cache_after_first
  /\ getCachedPath "/b::/c" "/srv/a" cache_after_first
     = ("/c", cache_after_first)
  /\ snd (serveStatic (env := demo_env) instance_two
            (demo_request "GET" "/b::/c" None) fresh_response cache_after_first)
     = Piped (initial fresh_response false)
             {| sv_path := "/c"; sv_negotiated := None |}
  /\ snd (serveStatic (env := demo_env) instance_two
            (demo_request "GET" "/b::/c" None) fresh_response [])
     = Piped (initial fresh_response false)
             {| sv_path := "/b::/c"; sv_negotiated := None |}.
Proof.
  split.
  - change cache_after_first with (snd (getCachedPath "/c" "/srv/a::/b" [])).
    apply reachable_call, reachable_empty.
  - repeat split; reflexivity.
Qed.

(** C5: a lookup that returns a value stored under another root and
    another pathname.  The only entry of the cache was stored for root
    [/srv/a::/b] and pathname [/c]; the lookup for root [/srv/a] and
    pathname [/b::/c] finds it, because both compose to the same key. *)
Theorem getCachedPath_foreign_value :
  let c := snd (getCachedPath "/c" "/srv/a::/b" []) in
  c = [(cacheKey "/c" "/srv/a::/b", "/c")]
  /\ cacheKey "/b::/c" "/srv/a" = cacheKey "/c" "/srv/a::/b"
  /\ "/srv/a" <> "/srv/a::/b" /\ "/b::/c" <> "/c"
  /\ fst (getCachedPath "/b::/c" "/srv/a" c) = "/c".
Proof.
  cbv zeta. repeat split; try reflexivity; discriminate.
Qed.

(** ** The listeners of one request *)

Section Listeners.
Context {env : Env}.

Lemma getHeader_setHeader_eq name v r :
  getHeader name (setHeader name v r) = Some v.
Proof. unfold getHeader, setHeader. simpl. apply lookup_insert_eq. Qed.

Lemma getHeader_setHeader_ne name name' v r :
  toLowerCase name <> toLowerCase name' ->
  getHeader name' (setHeader name v r) = getHeader name' r.
Proof.
  intros Hne. unfold getHeader, setHeader. simpl. now apply lookup_insert_ne.
Qed.

(** The middleware starts the listeners with [forwardError = !fallthrough]. *)
Lemma serveStatic_piped cfg req res0 cache cache' st0 sv :
  serveStatic cfg req res0 cache = (cache', Piped st0 sv) ->
  st0 = initial res0 (negb (fallthrough cfg)).
Proof.
  unfold serveStatic.
  destruct (negb (String.eqb (req_method req) "GET")
            && negb (String.eqb (req_method req) "HEAD")).
  - destruct (fallthrough cfg); discriminate.
  - destruct (getCachedPath _ _ _) as [cachedPath pc]. now intros [= _ <- _].
Qed.

(** Only the [file] listener writes [forwardError]. *)
Lemma forwardError_emit cfg sv this ev st :
  forwardError (emit cfg sv this ev st)
  = forwardError st || (fallthrough cfg && is_file ev).
Proof.
  destruct ev as [| filePath stat | | err]; simpl.
  - rewrite andb_false_r, orb_false_r.
    destruct (redirect cfg); [|reflexivity].
    unfold createRedirectDirectoryListener.
    destruct (hasTrailingSlash this); reflexivity.
  - now rewrite andb_false_r, orb_false_r.
  - destruct (fallthrough cfg); simpl;
      [now rewrite orb_true_r | now rewrite orb_false_r].
  - rewrite andb_false_r, orb_false_r. unfold error.
    destruct (forwardError st || _); reflexivity.
Qed.

Lemma forwardError_emit_all cfg sv this evs st :
  forwardError (emit_all cfg sv this evs st)
  = forwardError st || (fallthrough cfg && List.existsb is_file evs).
Proof.
  unfold emit_all. revert st.
  induction evs as [|ev evs IH]; intros st; simpl.
  - now rewrite andb_false_r, orb_false_r.
  - rewrite IH, forwardError_emit.
    destruct (forwardError st), (fallthrough cfg), (is_file ev); reflexivity.
Qed.

Lemma existsb_is_file_false evs :
  ~ In File evs -> List.existsb is_file evs = false.
Proof.
  induction evs as [|ev evs IH]; simpl; [reflexivity|].
  intros H. rewrite IH by tauto.
  destruct ev; simpl; try reflexivity. tauto.
Qed.

(** Under fall-through and before any [file] notification the listeners
    have [forwardError = false]. *)
Lemma forwardError_before_file cfg sv this evs res0 :
  fallthrough cfg = true -> ~ In File evs ->
  forwardError
    (emit_all cfg sv this evs (initial res0 (negb (fallthrough cfg)))) = false.
Proof.
  intros Hft Hnf. rewrite forwardError_emit_all, Hft.
  now rewrite existsb_is_file_false.
Qed.

(** C1 (amended): under fall-through and before any [file]
    notification, an engine error whose status is a number below 500 --
    403 as much as 404 -- is suppressed: [next] is called with no
    argument.  An error whose status is 500 or more is passed to [next],
    whatever the fall-through setting and the notifications so far. *)
Theorem error_status_rule cfg req res0 cache cache' st0 sv this evs err n :
  serveStatic cfg req res0 cache = (cache', Piped st0 sv) ->
  err_statusCode err = JsNum (Finite n) ->
  let st := emit_all cfg sv this evs st0 in
  (fallthrough cfg = true -> ~ In File evs -> (n < 500)%Z ->
   emit cfg sv this (Error err) st = next NoArg st)
  /\ ((500 <= n)%Z ->
      emit cfg sv this (Error err) st = next (WithError err) st).
Proof.
  intros Hserve Hstatus st. apply serveStatic_piped in Hserve. subst st0.
  split.
  - intros Hft Hnf Hlt. simpl. unfold error.
    subst st. rewrite forwardError_before_file by assumption.
    rewrite Hstatus. unfold lessThan. simpl.
    now apply Z.ltb_lt in Hlt as ->.
  - intros Hge. simpl. unfold error. rewrite Hstatus. unfold lessThan. simpl.
    apply Z.ltb_ge in Hge as ->. now rewrite orb_true_r.
Qed.

(** C3: once the engine has notified [file], every later error is passed
    to [next] with the error value, whatever its status and also under
    fall-through. *)
Theorem error_after_file_is_forwarded cfg req res0 cache cache' st0 sv this
    before after err :
  serveStatic cfg req res0 cache = (cache', Piped st0 sv) ->
  let st := emit_all cfg sv this (before ++ File :: after) st0 in
  emit cfg sv this (Error err) st = next (WithError err) st
  /\ nextCalls (emit cfg sv this (Error err) st)
     = nextCalls st ++ [WithError err].
Proof.
  intros Hserve st. apply serveStatic_piped in Hserve. subst st0.
  assert (Hfwd : forwardError st = true).
  { subst st. rewrite forwardError_emit_all. cbn [initial forwardError].
    rewrite List.existsb_app. simpl. rewrite orb_true_r.
    now destruct (fallthrough cfg). }
  simpl. unfold error. rewrite Hfwd. simpl. split; reflexivity.
Qed.

(** C10 (amended): under fall-through and before any [file]
    notification, an error whose [statusCode] is absent, or converts to
    not-a-number, is passed to [next]; a [statusCode] that is no number
    but converts to one below 500 ([null], a boolean, a string that
    reads as such a number) is suppressed like a numeric status below
    500. *)
Theorem error_status_conversion cfg req res0 cache cache' st0 sv this evs err :
  serveStatic cfg req res0 cache = (cache', Piped st0 sv) ->
  fallthrough cfg = true -> ~ In File evs ->
  let st := emit_all cfg sv this evs st0 in
  (err_statusCode err = JsUndefined \/ toNumber (err_statusCode err) = NaN ->
   emit cfg sv this (Error err) st = next (WithError err) st)
  /\ (err_statusCode err = JsNull \/ (exists b, err_statusCode err = JsBool b)
      \/ (exists s z, err_statusCode err = JsString s
                      /\ stringToNumber s = Finite z /\ (z < 500)%Z) ->
      emit cfg sv this (Error err) st = next NoArg st).
Proof.
  intros Hserve Hft Hnf st. apply serveStatic_piped in Hserve. subst st0.
  assert (Hfwd : forwardError st = false)
    by (subst st; now apply forwardError_before_file).
  split.
  - intros Hnan.
    assert (H : toNumber (err_statusCode err) = NaN)
      by (destruct Hnan as [->|H]; [reflexivity | exact H]).
    simpl. unfold error, lessThan. now rewrite Hfwd, H.
  - intros Hlow. simpl. unfold error, lessThan. rewrite Hfwd.
    destruct Hlow as [->|[[b ->]|(s & z & -> & Hs & Hz)]]; simpl.
    + reflexivity.
    + now destruct b.
    + rewrite Hs. simpl. now apply Z.ltb_lt in Hz as ->.
Qed.

End Listeners.

(** ** Strings: occurrence and suffixes *)

Lemma length_append (a b : string) :
  String.length (a +:+ b) = String.length a + String.length b.
Proof. induction a as [|c a IH]; simpl; [reflexivity | now rewrite IH]. Qed.

Lemma substr_append (a b : string) : substr (String.length a) (a +:+ b) = b.
Proof. induction a as [|c a IH]; simpl; [now destruct b | exact IH]. Qed.

Lemma substring_prefix_append (a b : string) :
  String.substring 0 (String.length a) (a +:+ b) = a.
Proof.
  induction a as [|c a IH]; simpl; [now destruct b | now rewrite IH].
Qed.

Lemma substring_at_0 (t s : string) :
  String.substring 0 (String.length t) s = t -> exists post, s = t +:+ post.
Proof.
  revert s. induction t as [|a t IH]; intros s; simpl.
  - intros _. now exists s.
  - destruct s as [|c s]; [discriminate|].
    intros H. injection H as -> H. destruct (IH _ H) as [post ->].
    now exists post.
Qed.

Lemma substring_occurrence (m : nat) (t s : string) :
  String.substring m (String.length t) s = t -> contains s t.
Proof.
  revert s. induction m as [|m IH]; intros s H.
  - destruct (substring_at_0 _ _ H) as [post ->]. now exists "", post.
  - destruct s as [|c s]; simpl in H.
    + subst t. now exists "", "".
    + destruct (IH _ H) as (pre & post & ->). now exists (String c pre), post.
Qed.

Lemma occurrence_substring (pre t post : string) :
  String.substring (String.length pre) (String.length t) (pre +:+ t +:+ post) = t.
Proof.
  induction pre as [|c pre IH]; [|exact IH].
  exact (substring_prefix_append t post).
Qed.

(** [h.indexOf(token) !== -1] says that [token] occurs in [h]. *)
Lemma indexOf_contains (h token : string) :
  token <> "" ->
  negb (indexOf h token =? -1)%Z = true <-> contains h token.
Proof.
  intros Hne. unfold indexOf.
  destruct (String.index 0 token h) as [i|] eqn:Hidx.
  - split; intros _.
    + apply String.index_correct1 in Hidx. now apply substring_occurrence in Hidx.
    + apply negb_true_iff, Z.eqb_neq. lia.
  - split; [discriminate|].
    intros (pre & post & ->). exfalso.
    apply (String.index_correct3 0 (String.length pre) _ _ Hidx Hne);
      [lia | apply occurrence_substring].
Qed.

Lemma truthy_append (a b : string) :
  truthy b = true -> truthy (a +:+ b) = true.
Proof.
  unfold truthy. destruct a as [|c a]; [trivial | reflexivity].
Qed.

Lemma stripCompressedSuffix_br (c : string) :
  stripCompressedSuffix (c +:+ ".br") = c.
Proof.
  unfold stripCompressedSuffix, endsWith.
  rewrite !length_append. simpl String.length.
  replace (String.length c + 3 - 3) with (String.length c) by lia.
  rewrite substr_append, String.eqb_refl.
  replace (3 <=? String.length c + 3) with true
    by (symmetry; apply Nat.leb_le; lia).
  simpl. apply substring_prefix_append.
Qed.

Lemma stripCompressedSuffix_gz (c : string) :
  stripCompressedSuffix (c +:+ ".gz") = c.
Proof.
  unfold stripCompressedSuffix, endsWith.
  rewrite !length_append. simpl String.length.
  replace (String.length c + 3 - 3) with (String.length c) by lia.
  rewrite substr_append, String.eqb_refl.
  replace (3 <=? String.length c + 3) with true
    by (symmetry; apply Nat.leb_le; lia).
  rewrite orb_true_r. apply substring_prefix_append.
Qed.

(** The loop of [collapseLeadingSlashes] splits the string into its run
    of leading slashes and the rest. *)
Lemma leadingSlashes_split (s : string) :
  s = slashes (leadingSlashes s) +:+ substr (leadingSlashes s) s
  /\ no_leading_slash (substr (leadingSlashes s) s).
Proof.
  induction s as [|c s [IH1 IH2]]; simpl; [auto|].
  destruct (Ascii.eqb c SLASH) eqn:E; simpl.
  - apply Ascii.eqb_eq in E. subst c. split; [|exact IH2].
    change (String SLASH s
            = String SLASH (slashes (leadingSlashes s)
                            +:+ substr (leadingSlashes s) s)).
    now f_equal.
  - apply Ascii.eqb_neq in E. auto.
Qed.

(** A run of two or more leading slashes becomes one slash; nothing
    else changes. *)
Lemma collapseLeadingSlashes_spec (s : string) :
  exists k rest,
    s = slashes k +:+ rest /\ no_leading_slash rest
    /\ collapseLeadingSlashes s = slashes (Nat.min k 1) +:+ rest.
Proof.
  destruct (leadingSlashes_split s) as [Hs Hrest].
  exists (leadingSlashes s), (substr (leadingSlashes s) s).
  repeat split; [exact Hs | exact Hrest |].
  unfold collapseLeadingSlashes.
  destruct (Nat.ltb_spec 1 (leadingSlashes s)) as [Hk|Hk].
  - now replace (Nat.min (leadingSlashes s) 1) with 1 by lia.
  - replace (Nat.min (leadingSlashes s) 1) with (leadingSlashes s) by lia.
    exact Hs.
Qed.

(** ** Negotiation, the method gate and the directory listeners *)

Lemma getHeader_end_ name data r : getHeader name (end_ data r) = getHeader name r.
Proof. reflexivity. Qed.

Lemma getHeader_set_statusCode name code r :
  getHeader name (set_statusCode code r) = getHeader name r.
Proof. reflexivity. Qed.

Ltac header_lookup :=
  repeat first
    [ rewrite getHeader_end_
    | rewrite getHeader_set_statusCode
    | rewrite getHeader_setHeader_eq
    | rewrite getHeader_setHeader_ne
        by (let H := fresh in intro H; vm_compute in H; discriminate H) ].

Section Middleware.
Context {env : Env}.


(** What the negotiation can return: a sibling of the candidate with the
    tag that belongs to its suffix. *)
Lemma negotiate_shape cachedPath acceptEncoding root p tag :
  negotiate cachedPath acceptEncoding root = Some (p, tag) ->
  (p = candidateOf cachedPath +:+ ".br" /\ tag = "br")
  \/ (p = candidateOf cachedPath +:+ ".gz" /\ tag = "gzip").
Proof.
  unfold negotiate.
  destruct (_ && existsSync (_ +:+ ".br")); [intros [= <- <-]; auto|].
  destruct (_ && existsSync (_ +:+ ".gz")); [intros [= <- <-]; auto|].
  discriminate.
Qed.

(** C8: a method other than GET and HEAD.  Under fall-through [next] is
    called once, with no argument, and the response is left as it was;
    otherwise the response is ended with status 405, [Allow: GET, HEAD],
    [Content-Length: 0] and nothing written, and [next] is not called. *)
Theorem method_gate cfg req res0 cache :
  req_method req <> "GET" -> req_method req <> "HEAD" ->
  exists st,
    serveStatic cfg req res0 cache = (cache, Returned st)
    /\ (fallthrough cfg = true ->
        nextCalls st = [NoArg] /\ res st = res0)
    /\ (fallthrough cfg = false ->
        nextCalls st = []
        /\ res_statusCode (res st) = 405%N
        /\ getHeader "Allow" (res st) = Some (HStr "GET, HEAD")
        /\ getHeader "Content-Length" (res st) = Some (HStr "0")
        /\ res_body (res st) = res_body res0
        /\ res_finished (res st) = true).
Proof.
  intros Hget Hhead. unfold serveStatic.
  apply String.eqb_neq in Hget, Hhead. rewrite Hget, Hhead. simpl.
  destruct (fallthrough cfg); eexists; split; try reflexivity.
  - split; [auto | discriminate].
  - split; [discriminate | intros _].
    cbn [res nextCalls with_res initial].
    repeat split; try reflexivity; header_lookup; reflexivity.
Qed.

(** C7: under the redirect policy, a directory whose URL already ends
    in a slash is answered through [this.error(404)]; the response is
    not touched, so no redirect is sent. *)
Theorem redirect_trailing_slash_not_found cfg sv this st :
  redirect cfg = true -> hasTrailingSlash this = true ->
  emit cfg sv this Directory st = stream_error 404 st
  /\ streamErrors (emit cfg sv this Directory st) = streamErrors st ++ [404%N]
  /\ res (emit cfg sv this Directory st) = res st
  /\ nextCalls (emit cfg sv this Directory st) = nextCalls st.
Proof.
  intros Hrd Hslash. simpl. rewrite Hrd.
  unfold createRedirectDirectoryListener. rewrite Hslash.
  repeat split.
Qed.

(** C6: under the redirect policy, a directory whose URL does not end
    in a slash is answered 301.  [Location] is the encoded original URL
    whose pathname got one slash appended and its run of leading
    slashes collapsed to one; the body is the HTML document naming the
    escaped location, spelled out below character by character ([nl]
    is the line feed, [q] the double quote), [Content-Length] is its
    length in bytes, and the four fixed headers are set. *)
Theorem redirect_response cfg sv this st :
  redirect cfg = true -> hasTrailingSlash this = false ->
  let original := req_originalUrl (stream_req this) in
  let r := res (emit cfg sv this Directory st) in
  let nl := String "010"%char EmptyString in
  let q := String "034"%char EmptyString in
  exists k rest loc doc,
    url_pathname original +:+ "/" = slashes k +:+ rest
    /\ no_leading_slash rest
    /\ loc = encodeUrl (url_format
               (set_pathname (slashes (Nat.min k 1) +:+ rest)
                             (set_path None original)))
    /\ doc = createHtmlDocument "Redirecting"
               ("Redirecting to " +:+ escapeHtml loc)
    /\ res_statusCode r = 301%N
    /\ getHeader "Location" r = Some (HStr loc)
    /\ getHeader "Content-Type" r = Some (HStr "text/html; charset=UTF-8")
    /\ getHeader "Content-Length" r = Some (HNum (byteLength doc))
    /\ getHeader "Content-Security-Policy" r = Some (HStr "default-src 'none'")
    /\ getHeader "X-Content-Type-Options" r = Some (HStr "nosniff")
    /\ res_body r = res_body (res st) +:+ doc
    /\ res_finished r = true
    /\ nextCalls (emit cfg sv this Directory st) = nextCalls st
    /\ streamErrors (emit cfg sv this Directory st) = streamErrors st
    /\ doc = "<!DOCTYPE html>" +:+ nl +:+
             "<html lang=" +:+ q +:+ "en" +:+ q +:+ ">" +:+ nl +:+
             "<head>" +:+ nl +:+
             "<meta charset=" +:+ q +:+ "utf-8" +:+ q +:+ ">" +:+ nl +:+
             "<title>Redirecting</title>" +:+ nl +:+
             "</head>" +:+ nl +:+
             "<body>" +:+ nl +:+
             "<pre>Redirecting to " +:+ escapeHtml loc +:+ "</pre>" +:+ nl +:+
             "</body>" +:+ nl +:+
             "</html>" +:+ nl
    /\ getHeader "Content-Length" r
       = Some (HNum (N.of_nat (String.length doc)))
    /\ N.of_nat (String.length doc)
       = (148 + N.of_nat (String.length (escapeHtml loc)))%N
    /\ (res_body (res st) = "" -> res_body r = doc).
Proof.
  intros Hrd Hslash original r nl q.
  destruct (collapseLeadingSlashes_spec (url_pathname original +:+ "/"))
    as (k & rest & Hsplit & Hrest & Hcollapse).
  exists k, rest, (redirectLocation this),
    (createHtmlDocument "Redirecting"
       ("Redirecting to " +:+ escapeHtml (redirectLocation this))).
  assert (Hloc : redirectLocation this
                 = encodeUrl (url_format
                     (set_pathname (slashes (Nat.min k 1) +:+ rest)
                                   (set_path None original)))).
  { unfold redirectLocation. fold original.
    cbn [url_pathname set_path]. now rewrite Hcollapse. }
  subst r. simpl emit. rewrite Hrd.
  unfold createRedirectDirectoryListener. rewrite Hslash.
  cbn [res nextCalls streamErrors with_res].
  assert (Hlen : N.of_nat (String.length
                   (createHtmlDocument "Redirecting"
                      ("Redirecting to " +:+ escapeHtml (redirectLocation this))))
                 = (148 + N.of_nat (String.length
                                      (escapeHtml (redirectLocation this))))%N).
  { unfold createHtmlDocument, LF, DQUOTE.
    rewrite !length_append. cbn [String.length]. lia. }
  repeat split; try assumption; try reflexivity; try exact Hlen;
    try (header_lookup; reflexivity).
  cbn [end_ res_body setHeader set_statusCode]. now intros ->.
Qed.

(** C9: the [headers] listener.  [Vary: Accept-Encoding] is always set.
    When the middleware selected a precompressed sibling,
    [Content-Encoding] is its tag, [Content-Length] is the size in the
    [stat] of the served file, and [Content-Type] is the type that
    [mime.lookup] gives for the path without the suffix.  The
    [setHeaders] option, when there is one, is called last, on the
    response that already carries these headers. *)
Theorem onHeaders_order cfg req res0 cache cache' st0 sv filePath stat r :
  serveStatic cfg req res0 cache = (cache', Piped st0 sv) ->
  let built := builtinHeaders sv stat r in
  onHeaders cfg sv filePath stat r
  = match setHeaders cfg with
    | Some callback => callback built filePath stat
    | None => built
    end
  /\ getHeader "Vary" built = Some (HStr "Accept-Encoding")
  /\ forall precompressed encoding,
       sv_negotiated sv = Some (precompressed, encoding) ->
       exists original,
         (precompressed = original +:+ ".br" /\ encoding = "br"
          \/ precompressed = original +:+ ".gz" /\ encoding = "gzip")
         /\ sv_path sv = precompressed
         /\ getHeader "Content-Encoding" built = Some (HStr encoding)
         /\ getHeader "Content-Length" built = Some (HNum (stat_size stat))
         /\ (forall type, mime_lookup original = Some type -> type <> "" ->
             getHeader "Content-Type" built = Some (HStr type)).
Proof.
  intros Hserve built.
  assert (Hsv : forall p tag, sv_negotiated sv = Some (p, tag) ->
            exists cachedPath,
              (p = candidateOf cachedPath +:+ ".br" /\ tag = "br"
               \/ p = candidateOf cachedPath +:+ ".gz" /\ tag = "gzip")
              /\ sv_path sv = p).
  { revert Hserve. unfold serveStatic.
    destruct (negb (String.eqb (req_method req) "GET")
              && negb (String.eqb (req_method req) "HEAD")).
    - destruct (fallthrough cfg); discriminate.
    - destruct (getCachedPath _ _ _) as [cachedPath pc].
      intros [= _ _ <-] p tag. cbn [sv_negotiated sv_path].
      destruct (preferPrecompressed cfg); [|discriminate].
      intros Hn. rewrite Hn. exists cachedPath.
      apply negotiate_shape in Hn. split; [exact Hn|].
      destruct Hn as [[-> _]|[-> _]]; now rewrite truthy_append. }
  split; [reflexivity|]. split.
  - subst built. unfold builtinHeaders, onHeaders. cbn [setHeaders].
    destruct (sv_negotiated sv) as [[p tag]|]; [|now header_lookup].
    destruct (truthy p && truthy tag); [|now header_lookup].
    destruct (mime_lookup (stripCompressedSuffix p)) as [type|];
      [destruct (truthy type)|]; now header_lookup.
  - intros p tag Hneg. destruct (Hsv _ _ Hneg) as (cachedPath & Hn & Hpath).
    exists (candidateOf cachedPath).
    assert (Hstrip : stripCompressedSuffix p = candidateOf cachedPath).
    { destruct Hn as [[-> _]|[-> _]];
        [apply stripCompressedSuffix_br | apply stripCompressedSuffix_gz]. }
    assert (Htruthy : truthy p && truthy tag = true).
    { destruct Hn as [[-> ->]|[-> ->]]; now rewrite truthy_append. }
    split; [exact Hn|]. split; [exact Hpath|].
    subst built. unfold builtinHeaders, onHeaders. cbn [setHeaders].
    rewrite Hneg, Htruthy, Hstrip.
    repeat split.
    + destruct (mime_lookup (candidateOf cachedPath)) as [type|];
        [destruct (truthy type)|]; now header_lookup.
    + now header_lookup.
    + intros type Hty Hne. rewrite Hty. unfold truthy.
      apply String.eqb_neq in Hne. rewrite Hne. cbn [negb]. now header_lookup.
Qed.

End Middleware.

(** ** The theorems at concrete requests *)

(** C1, as stated, fails: under fall-through and before any [file]
    notification, an error with status 403 is not passed to [next]; the
    listener calls [next] with no argument. *)
Lemma client_error_403_is_suppressed :
  let err := http_error (JsNum (Finite 403)) in
  let st0 := initial fresh_response false in
  serveStatic (env := demo_env) www (demo_request "GET" "/secret" None)
    fresh_response []
  = ([(cacheKey "/secret" "/var/www", "/secret")],
     Piped st0 (served_plain "/secret"))
  /\ nextCalls (emit (env := demo_env) www (served_plain "/secret")
                  (demo_stream "/secret" false) (Error err) st0)
     = [NoArg]
  /\ [NoArg] <> [WithError err].
Proof. cbv zeta. repeat split. discriminate. Qed.

(** The rule at 403 and at 500, for a request served under fall-through. *)
Lemma error_status_rule_witness :
  let st0 := initial fresh_response false in
  let this := demo_stream "/secret" false in
  emit (env := demo_env) www (served_plain "/secret") this
    (Error (http_error (JsNum (Finite 403)))) st0
  = next NoArg st0
  /\ emit (env := demo_env) www (served_plain "/secret") this
       (Error (http_error (JsNum (Finite 500)))) st0
     = next (WithError (http_error (JsNum (Finite 500)))) st0.
Proof.
  cbv zeta. split.
  - apply (proj1 (error_status_rule (env := demo_env) www
                    (demo_request "GET" "/secret" None) fresh_response []
                    [(cacheKey "/secret" "/var/www", "/secret")]
                    (initial fresh_response false) (served_plain "/secret")
                    (demo_stream "/secret" false) []
                    (http_error (JsNum (Finite 403))) 403
                    eq_refl eq_refl));
      [reflexivity | intros [] | reflexivity].
  - apply (proj2 (error_status_rule (env := demo_env) www
                    (demo_request "GET" "/secret" None) fresh_response []
                    [(cacheKey "/secret" "/var/www", "/secret")]
                    (initial fresh_response false) (served_plain "/secret")
                    (demo_stream "/secret" false) []
                    (http_error (JsNum (Finite 500))) 500
                    eq_refl eq_refl)).
    discriminate.
Defined.


(** A 404 that arrives after [headers] and [file] is passed to [next]. *)
Lemma error_after_file_is_forwarded_witness :
  let st0 := initial fresh_response false in
  let sv := served_plain "/a.txt" in
  let this := demo_stream "/a.txt" false in
  let err := http_error (JsNum (Finite 404)) in
  let st := emit_all (env := demo_env) www sv this
              ([Headers "/var/www/a.txt" {| stat_size := 5 |}] ++ File :: [])
              st0 in
  emit (env := demo_env) www sv this (Error err) st = next (WithError err) st
  /\ nextCalls (emit (env := demo_env) www sv this (Error err) st)
     = nextCalls st ++ [WithError err].
Proof.
  exact (error_after_file_is_forwarded (env := demo_env) www
           (demo_request "GET" "/a.txt" None) fresh_response []
           [(cacheKey "/a.txt" "/var/www", "/a.txt")]
           (initial fresh_response false) (served_plain "/a.txt")
           (demo_stream "/a.txt" false)
           [Headers "/var/www/a.txt" {| stat_size := 5 |}] []
           (http_error (JsNum (Finite 404))) eq_refl).
Defined.

(** The directory [//evil.com] is redirected to [/evil.com/]. *)
Lemma redirect_response_witness :
  let st0 := initial fresh_response false in
  let r := res (emit (env := demo_env) www (served_plain "//evil.com")
                  (demo_stream "//evil.com" false) Directory st0) in
  res_statusCode r = 301%N
  /\ getHeader "Location" r = Some (HStr "/evil.com/")
  /\ res_finished r = true
  /\ getHeader "Content-Length" r = Some (HNum 158)
  /\ res_body r
     = "<!DOCTYPE html>" +:+ String "010"%char
         ("<html lang=" +:+ String "034"%char ("en" +:+ String "034"%char
         (">" +:+ String "010"%char
         ("<head>" +:+ String "010"%char
         ("<meta charset=" +:+ String "034"%char ("utf-8" +:+ String "034"%char
         (">" +:+ String "010"%char
         ("<title>Redirecting</title>" +:+ String "010"%char
         ("</head>" +:+ String "010"%char
         ("<body>" +:+ String "010"%char
         ("<pre>Redirecting to /evil.com/</pre>" +:+ String "010"%char
         ("</body>" +:+ String "010"%char
         ("</html>" +:+ String "010"%char EmptyString))))))))))))).
Proof.
  cbv zeta.
  destruct (redirect_response (env := demo_env) www (served_plain "//evil.com")
              (demo_stream "//evil.com" false) (initial fresh_response false)
              eq_refl eq_refl)
    as (k & rest & loc & doc & _ & _ & _ & _ & Hstatus & _ & _ & _ & _ & _
        & _ & Hfin & _).
  split; [exact Hstatus | split; [reflexivity | split; [exact Hfin|]]].
  split; reflexivity.
Defined.

(** The directory [/dir/] is answered through [this.error(404)]. *)
Lemma redirect_trailing_slash_not_found_witness :
  let st0 := initial fresh_response false in
  emit (env := demo_env) www (served_plain "/dir/") (demo_stream "/dir/" true)
    Directory st0
  = stream_error 404 st0.
Proof.
  exact (proj1 (redirect_trailing_slash_not_found (env := demo_env) www
                  (served_plain "/dir/") (demo_stream "/dir/" true)
                  (initial fresh_response false) eq_refl eq_refl)).
Defined.

(** A POST without fall-through is answered 405. *)
Lemma method_gate_witness :
  exists st,
    serveStatic (env := demo_env) (demo_config false true false "/var/www")
      (demo_request "POST" "/a.txt" None) fresh_response []
    = ([], Returned st)
    /\ nextCalls st = []
    /\ res_statusCode (res st) = 405%N
    /\ getHeader "Allow" (res st) = Some (HStr "GET, HEAD")
    /\ res_body (res st) = "".
Proof.
  destruct (method_gate (env := demo_env)
              (demo_config false true false "/var/www")
              (demo_request "POST" "/a.txt" None) fresh_response [])
    as (st & Hserve & _ & Hno); [discriminate | discriminate |].
  destruct (Hno eq_refl) as (Hnext & Hstatus & Hallow & _ & Hbody & _).
  exists st. repeat split; assumption.
Defined.

(** [app.js.br] is served for [app.js]: the built-in headers, then the
    [setHeaders] option. *)
Lemma onHeaders_order_witness :
  let stat := {| stat_size := 1234 |} in
  let built := builtinHeaders (env := demo_env) served_brotli stat fresh_response in
  onHeaders (env := demo_env) www_precompressed served_brotli
    "/var/www/app.js.br" stat fresh_response
  = demo_setHeaders built "/var/www/app.js.br" stat
  /\ getHeader "Vary" built = Some (HStr "Accept-Encoding")
  /\ getHeader "Content-Encoding" built = Some (HStr "br")
  /\ getHeader "Content-Length" built = Some (HNum 1234)
  /\ getHeader "Content-Type" built = Some (HStr "application/javascript").
Proof.
  cbv zeta.
  destruct (onHeaders_order (env := demo_env) www_precompressed
              (demo_request "GET" "/app.js" (Some "gzip, br")) fresh_response []
              [(cacheKey "/app.js" "/var/www", "/app.js")]
              (initial fresh_response false) served_brotli
              "/var/www/app.js.br" {| stat_size := 1234 |} fresh_response
              eq_refl)
    as (Hcall & Hvary & Hpre).
  split; [exact Hcall | split; [exact Hvary | repeat split]].
Defined.

(** C10, as stated, fails: [null] is no number, yet [null < 500] holds,
    so under fall-through an error with [statusCode: null] is not passed
    to [next]. *)
Lemma null_status_is_suppressed :
  let err := http_error JsNull in
  let st0 := initial fresh_response false in
  serveStatic (env := demo_env) www (demo_request "GET" "/a.txt" None)
    fresh_response []
  = ([(cacheKey "/a.txt" "/var/www", "/a.txt")],
     Piped st0 (served_plain "/a.txt"))
  /\ nextCalls (emit (env := demo_env) www (served_plain "/a.txt")
                  (demo_stream "/a.txt" false) (Error err) st0)
     = [NoArg]
  /\ [NoArg] <> [WithError err].
Proof. cbv zeta. repeat split. discriminate. Qed.

(** An error without [statusCode] is passed to [next]. *)
Lemma error_status_conversion_witness :
  let st0 := initial fresh_response false in
  let this := demo_stream "/a.txt" false in
  let err := http_error JsUndefined in
  emit (env := demo_env) www (served_plain "/a.txt") this (Error err) st0
  = next (WithError err) st0.
Proof.
  cbv zeta.
  apply (proj1 (error_status_conversion (env := demo_env) www
                  (demo_request "GET" "/a.txt" None) fresh_response []
                  [(cacheKey "/a.txt" "/var/www", "/a.txt")]
                  (initial fresh_response false) (served_plain "/a.txt")
                  (demo_stream "/a.txt" false) []
                  (http_error JsUndefined) eq_refl eq_refl (fun H => H))).
  left. reflexivity.
Defined.

(** ** More on the path resolution cache *)

Lemma map_get_map_set_eq k v (m : Cache) : map_get k (map_set k v m) = Some v.
Proof.
  unfold map_get. induction m as [|[k0 v0] m IH]; simpl.
  - now rewrite String.eqb_refl.
  - destruct (String.eqb k0 k) eqn:E; simpl.
    + now rewrite String.eqb_refl.
    + now rewrite E.
Qed.

Lemma map_get_map_set_ne k k' v (m : Cache) :
  k' <> k -> map_get k' (map_set k v m) = map_get k' m.
Proof.
  intros Hne. unfold map_get. induction m as [|[k0 v0] m IH]; simpl.
  - apply not_eq_sym, String.eqb_neq in Hne. now rewrite Hne.
  - destruct (String.eqb k0 k) eqn:E; simpl.
    + apply String.eqb_eq in E. subst k0.
      apply not_eq_sym, String.eqb_neq in Hne. now rewrite Hne.
    + destruct (String.eqb k0 k'); [reflexivity | exact IH].
Qed.

Lemma map_get_map_delete_ne k k' (m : Cache) :
  k' <> k -> map_get k' (map_delete k m) = map_get k' m.
Proof.
  intros Hne. unfold map_get, map_delete.
  induction m as [|[k0 v0] m IH]; simpl; [reflexivity|].
  destruct (String.eqb k0 k) eqn:E; simpl.
  - apply String.eqb_eq in E. subst k0.
    apply not_eq_sym, String.eqb_neq in Hne. now rewrite Hne.
  - destruct (String.eqb k0 k'); [reflexivity | exact IH].
Qed.

Lemma map_get_map_delete_eq k (m : Cache) : map_get k (map_delete k m) = None.
Proof.
  apply map_get_None_keys. intros Hin. apply keys_map_delete in Hin. tauto.
Qed.

(** What a miss does to the cache before it stores the new entry. *)
Lemma getCachedPath_miss pathname root c :
  map_get (cacheKey pathname root) c = None ->
  getCachedPath pathname root c
  = (pathname,
     (if MAX_CACHE_SIZE <=? map_size c
      then match map_first_key c with
           | Some firstKey => map_delete firstKey c
           | None => c
           end
      else c) ++ [(cacheKey pathname root, pathname)]).
Proof.
  intros Hget. unfold getCachedPath.
  destruct (map_has (cacheKey pathname root) c) eqn:Hhas.
  { apply map_has_get in Hhas as [w Hw]. congruence. }
  f_equal. apply map_set_fresh.
  apply map_get_None_keys in Hget. intros Hk. apply Hget.
  destruct (MAX_CACHE_SIZE <=? map_size c); [|exact Hk].
  destruct (map_first_key c); [|exact Hk].
  apply keys_map_delete in Hk. tauto.
Qed.

Lemma reachable_run_calls calls c : reachable c -> reachable (run_calls calls c).
Proof.
  unfold run_calls. revert c.
  induction calls as [|[p r] calls IH]; intros c Hc; simpl; [exact Hc|].
  apply IH. now apply reachable_call.
Qed.

(** The cache of the program never holds more than [MAX_CACHE_SIZE]
    entries, and never two entries under one key. *)
Theorem pathCache_bounded c :
  reachable c -> map_size c <= MAX_CACHE_SIZE /\ List.NoDup (keys c).
Proof.
  intros Hc. destruct (reachable_inv c Hc) as [Hnd Hlen]. now split.
Qed.

(** After a call the key of the call is in the cache, with the value
    the call returned. *)
Lemma getCachedPath_stores pathname root c :
  map_get (cacheKey pathname root) (snd (getCachedPath pathname root c))
  = Some (fst (getCachedPath pathname root c)).
Proof.
  destruct (map_get (cacheKey pathname root) c) as [v|] eqn:Hget.
  - rewrite (getCachedPath_hit _ _ _ _ Hget). cbn [fst snd].
    rewrite <- (map_set_fresh (cacheKey pathname root) v
                  (map_delete (cacheKey pathname root) c)).
    + apply map_get_map_set_eq.
    + intros Hin. apply keys_map_delete in Hin. tauto.
  - rewrite (getCachedPath_miss _ _ _ Hget). cbn [fst snd].
    match goal with
    | |- map_get ?k (?m ++ [(?k, ?v)]) = _ =>
        destruct (map_get k m) as [w|] eqn:Hm
    end.
    + exfalso. apply map_get_None_keys in Hget. apply Hget.
      assert (Hin : In (cacheKey pathname root)
                       (keys (if MAX_CACHE_SIZE <=? map_size c
                              then match map_first_key c with
                                   | Some firstKey => map_delete firstKey c
                                   | None => c
                                   end
                              else c))).
      { apply map_get_In in Hm. unfold keys.
        change (cacheKey pathname root) with (fst (cacheKey pathname root, w)).
        now apply List.in_map. }
      destruct (MAX_CACHE_SIZE <=? map_size c); [|exact Hin].
      destruct (map_first_key c); [|exact Hin].
      apply keys_map_delete in Hin. tauto.
    + apply map_get_None_keys in Hm.
      rewrite <- (map_set_fresh _ _ _ Hm). apply map_get_map_set_eq.
Qed.

(** After a call, the key of the call is in the cache with the value the
    call returned, so the same call made again returns the same path. *)
Theorem getCachedPath_repeat pathname root c :
  map_get (cacheKey pathname root) (snd (getCachedPath pathname root c))
  = Some (fst (getCachedPath pathname root c))
  /\ fst (getCachedPath pathname root (snd (getCachedPath pathname root c)))
     = fst (getCachedPath pathname root c).
Proof.
  pose proof (getCachedPath_stores pathname root c) as Hstored.
  split; [exact Hstored|].
  now rewrite (getCachedPath_hit _ _ _ _ Hstored).
Qed.

(** The cache looks entries up by the composed key alone: after a call
    for one root and pathname, a call for any root and pathname that
    compose to the same key returns what the first call returned. *)
Theorem getCachedPath_keyed_by_concatenation pathname1 root1 pathname2 root2 c :
  cacheKey pathname1 root1 = cacheKey pathname2 root2 ->
  fst (getCachedPath pathname2 root2 (snd (getCachedPath pathname1 root1 c)))
  = fst (getCachedPath pathname1 root1 c).
Proof.
  intros Hkey. pose proof (getCachedPath_stores pathname1 root1 c) as Hstored.
  rewrite Hkey in Hstored.
  now rewrite (getCachedPath_hit _ _ _ _ Hstored).
Qed.

(** Whatever a call returns composes, with some root, to the key of the
    call: the returned path is a pathname an earlier call (or this one)
    was given under that key. *)
Theorem getCachedPath_returns_keyed_path pathname root c :
  reachable c ->
  exists root',
    cacheKey (fst (getCachedPath pathname root c)) root'
    = cacheKey pathname root.
Proof.
  intros Hc.
  pose proof (reachable_entries _ (reachable_call pathname root c Hc)
                (cacheKey pathname root) (fst (getCachedPath pathname root c))
                (map_get_In _ _ _ (getCachedPath_stores pathname root c)))
    as [root' Hroot'].
  now exists root'.
Qed.

(** Every call leaves its own entry last in the cache, the most recently
    touched place, whether it was a hit or a miss. *)
Theorem getCachedPath_most_recent pathname root c :
  exists others,
    snd (getCachedPath pathname root c)
    = others ++ [(cacheKey pathname root, fst (getCachedPath pathname root c))]
    /\ ~ In (cacheKey pathname root) (keys others).
Proof.
  destruct (map_get (cacheKey pathname root) c) as [v|] eqn:Hget.
  - rewrite (getCachedPath_hit _ _ _ _ Hget). cbn [fst snd].
    exists (map_delete (cacheKey pathname root) c). split; [reflexivity|].
    intros Hin. apply keys_map_delete in Hin. tauto.
  - rewrite (getCachedPath_miss _ _ _ Hget). cbn [fst snd].
    eexists. split; [reflexivity|].
    apply map_get_None_keys in Hget. intros Hk. apply Hget.
    destruct (MAX_CACHE_SIZE <=? map_size c); [|exact Hk].
    destruct (map_first_key c); [|exact Hk].
    apply keys_map_delete in Hk. tauto.
Qed.

(** A miss on a cache that is at capacity removes the first entry, the
    one touched longest ago, and nothing else. *)
Theorem getCachedPath_evicts_first pathname root c :
  List.NoDup (keys c) ->
  map_get (cacheKey pathname root) c = None ->
  MAX_CACHE_SIZE <= map_size c ->
  getCachedPath pathname root c
  = (pathname, List.tl c ++ [(cacheKey pathname root, pathname)])
  /\ map_size (snd (getCachedPath pathname root c)) = map_size c.
Proof.
  intros Hnd Hget Hfull.
  destruct c as [|[k0 v0] rest];
    [unfold MAX_CACHE_SIZE in Hfull; simpl in Hfull; lia|].
  rewrite (getCachedPath_miss_full _ _ _ _ _ Hnd Hget Hfull). cbn [List.tl snd].
  split; [reflexivity|]. unfold map_size. rewrite List.length_app. simpl. lia.
Qed.

(** A call leaves every other key with the value it had; the one
    exception is the first key of a cache at capacity, which a miss
    removes. *)
Theorem getCachedPath_other_keys pathname root c k :
  k <> cacheKey pathname root ->
  map_get k (snd (getCachedPath pathname root c)) = map_get k c
  \/ (map_get (cacheKey pathname root) c = None
      /\ MAX_CACHE_SIZE <= map_size c
      /\ map_first_key c = Some k
      /\ map_get k (snd (getCachedPath pathname root c)) = None).
Proof.
  intros Hne.
  assert (Happ : forall m v,
             map_get k (m ++ [(cacheKey pathname root, v)]) = map_get k m).
  { intros m v. unfold map_get.
    induction m as [|[k0 v0] m IH]; simpl.
    - apply not_eq_sym, String.eqb_neq in Hne. now rewrite Hne.
    - destruct (String.eqb k0 k); [reflexivity | exact IH]. }
  destruct (map_get (cacheKey pathname root) c) as [v|] eqn:Hget.
  - left. rewrite (getCachedPath_hit _ _ _ _ Hget). cbn [snd].
    rewrite Happ. now apply map_get_map_delete_ne.
  - rewrite (getCachedPath_miss _ _ _ Hget). cbn [snd]. rewrite Happ.
    destruct (Nat.leb_spec MAX_CACHE_SIZE (map_size c)) as [Hfull|Hroom];
      [|now left].
    destruct (map_first_key c) as [firstKey|] eqn:Hfirst; [|now left].
    destruct (String.eqb_spec k firstKey) as [->|Hk].
    + right. repeat split; try assumption. apply map_get_map_delete_eq.
    + left. now apply map_get_map_delete_ne.
Qed.

Lemma single_root_run_calls root paths c :
  single_root root c ->
  single_root root (run_calls (List.map (fun q => (q, root)) paths) c).
Proof.
  unfold run_calls. revert c.
  induction paths as [|q paths IH]; intros c Hc; simpl; [exact Hc|].
  apply IH. now apply getCachedPath_single_root.
Qed.

(** With one root in use the cache cannot be observed: after any
    sequence of calls for that root, a call returns the pathname it was
    given. *)
Theorem getCachedPath_transparent root paths pathname :
  fst (getCachedPath pathname root
         (run_calls (List.map (fun q => (q, root)) paths) []))
  = pathname.
Proof.
  apply getCachedPath_single_root, single_root_run_calls.
  intros k v [].
Qed.

(** ** More on slashes and suffixes *)

Lemma leadingSlashes_no_leading (s : string) :
  no_leading_slash s -> leadingSlashes s = 0.
Proof.
  destruct s as [|c s]; simpl; [reflexivity|].
  intros Hc. apply Ascii.eqb_neq in Hc. now rewrite Hc.
Qed.

Lemma leadingSlashes_collapse (s : string) :
  leadingSlashes (collapseLeadingSlashes s) = Nat.min (leadingSlashes s) 1.
Proof.
  unfold collapseLeadingSlashes.
  destruct (Nat.ltb_spec 1 (leadingSlashes s)) as [Hk|Hk]; [|lia].
  change ("/" +:+ substr (leadingSlashes s) s)
    with (String SLASH (substr (leadingSlashes s) s)).
  cbn [leadingSlashes]. rewrite Ascii.eqb_refl.
  rewrite leadingSlashes_no_leading by apply leadingSlashes_split. lia.
Qed.

Lemma leadingSlashes_le_length (s : string) :
  leadingSlashes s <= String.length s.
Proof.
  induction s as [|c s IH]; simpl; [lia|].
  destruct (Ascii.eqb c SLASH); lia.
Qed.

Lemma substr_length (s : string) : substr (String.length s) s = "".
Proof. induction s as [|c s IH]; simpl; [reflexivity | exact IH]. Qed.

Lemma substr_app_le (i : nat) (a b : string) :
  i <= String.length a -> substr i (a +:+ b) = substr i a +:+ b.
Proof.
  revert a. induction i as [|i IH]; intros a Hi; [reflexivity|].
  destruct a as [|c a]; simpl in Hi; [lia|].
  simpl. apply IH. lia.
Qed.

Lemma substr_last_cons (c : ascii) (s : string) :
  s <> "" -> substr_last (String c s) = substr_last s.
Proof. destruct s; [congruence | reflexivity]. Qed.

Lemma substr_last_snoc (a : string) (c : ascii) :
  substr_last (a +:+ String c "") = String c "".
Proof.
  induction a as [|d a IH]; [reflexivity|].
  change (String d a +:+ String c "") with (String d (a +:+ String c "")).
  rewrite substr_last_cons; [exact IH | now destruct a].
Qed.

(** The result never begins with two slashes, and what follows the run
    of leading slashes is what followed it in the argument; a string
    with at most one leading slash is returned as it is. *)
Theorem collapseLeadingSlashes_single_slash (s : string) :
  leadingSlashes (collapseLeadingSlashes s) = Nat.min (leadingSlashes s) 1
  /\ substr (leadingSlashes (collapseLeadingSlashes s)) (collapseLeadingSlashes s)
     = substr (leadingSlashes s) s
  /\ (leadingSlashes s <= 1 -> collapseLeadingSlashes s = s).
Proof.
  split; [apply leadingSlashes_collapse|].
  rewrite leadingSlashes_collapse. unfold collapseLeadingSlashes.
  destruct (Nat.ltb_spec 1 (leadingSlashes s)) as [Hk|Hk].
  - split; [|lia].
    now replace (Nat.min (leadingSlashes s) 1) with 1 by lia.
  - split; [|reflexivity].
    now replace (Nat.min (leadingSlashes s) 1) with (leadingSlashes s) by lia.
Qed.

(** Collapsing twice is collapsing once. *)
Theorem collapseLeadingSlashes_idempotent (s : string) :
  collapseLeadingSlashes (collapseLeadingSlashes s) = collapseLeadingSlashes s.
Proof.
  unfold collapseLeadingSlashes at 1.
  rewrite leadingSlashes_collapse.
  destruct (Nat.ltb_spec 1 (Nat.min (leadingSlashes s) 1)); [lia | reflexivity].
Qed.

(** The pathname the redirect listener builds always ends in a slash,
    also when the whole pathname was a run of slashes. *)
Theorem collapseLeadingSlashes_keeps_trailing_slash (pathname : string) :
  substr_last (collapseLeadingSlashes (pathname +:+ "/")) = "/".
Proof.
  unfold collapseLeadingSlashes.
  destruct (Nat.ltb_spec 1 (leadingSlashes (pathname +:+ "/"))) as [Hk|Hk];
    [|apply substr_last_snoc].
  pose proof (leadingSlashes_le_length (pathname +:+ "/")) as Hle.
  rewrite length_append in Hle. cbn [String.length] in Hle.
  destruct (Nat.le_gt_cases (leadingSlashes (pathname +:+ "/"))
              (String.length pathname)) as [Hin|Hall].
  - rewrite substr_app_le by exact Hin.
    change ("/" +:+ (substr (leadingSlashes (pathname +:+ "/")) pathname +:+ "/"))
      with (String SLASH (substr (leadingSlashes (pathname +:+ "/")) pathname)
            +:+ "/").
    apply substr_last_snoc.
  - replace (leadingSlashes (pathname +:+ "/"))
      with (String.length (pathname +:+ "/"))
      by (rewrite length_append; cbn [String.length]; lia).
    now rewrite substr_length.
Qed.

(** Removing the suffix undoes adding it: the path whose sibling was
    negotiated is recovered from either sibling, and a path with neither
    suffix is left alone. *)
Theorem stripCompressedSuffix_roundtrip (p : string) :
  stripCompressedSuffix (p +:+ ".br") = p
  /\ stripCompressedSuffix (p +:+ ".gz") = p
  /\ (endsWith p ".br" = false -> endsWith p ".gz" = false ->
      stripCompressedSuffix p = p).
Proof.
  split; [apply stripCompressedSuffix_br|].
  split; [apply stripCompressedSuffix_gz|].
  intros Hbr Hgz. unfold stripCompressedSuffix. now rewrite Hbr, Hgz.
Qed.

(** ** The exported function: what it rejects and what it reads *)

Lemma is_bool_spec (b : bool) (a : Argument) :
  is_bool b a = true <-> a = Prim (JsBool b).
Proof.
  destruct a as [[| |b'|n|s]|f|]; simpl; try (split; [discriminate | congruence]).
  rewrite Bool.eqb_true_iff. split; congruence.
Qed.

Lemma truthy_string (s : string) : truthy s = true <-> s <> "".
Proof.
  unfold truthy. rewrite negb_true_iff. apply String.eqb_neq.
Qed.

(** A call that succeeds: what was passed and what is returned. *)
Lemma createMiddleware_success resolve rootArg options mw :
  createMiddleware resolve rootArg options = inr mw ->
  let opts := match options with Some o => o | None => no_options end in
  exists s callback,
    rootArg = Prim (JsString s) /\ s <> ""
    /\ opt_is_object opts = true
    /\ opt_maxage_readonly opts = false /\ opt_root_readonly opts = false
    /\ (forall f, callback = Some f <-> opt_setHeaders opts = Func f)
    /\ (callback = None <-> arg_truthy (opt_setHeaders opts) = false)
    /\ mw = {| mw_config :=
                 {| fallthrough := negb (is_bool false (opt_fallthrough opts));
                    redirect := negb (is_bool false (opt_redirect opts));
                    setHeaders := callback; root := resolve s;
                    preferPrecompressed :=
                      is_bool true (opt_preferPrecompressed opts) |};
               mw_maxage :=
                 js_or (js_or (opt_maxage opts) (opt_maxAge opts))
                       (Prim (JsNum (Finite 0))) |}.
Proof.
  intros Hmw opts. unfold createMiddleware in Hmw. fold opts in Hmw.
  destruct (arg_truthy rootArg) eqn:Hroot; [|discriminate]. cbn [negb] in Hmw.
  destruct rootArg as [[| |b|n|s]|f|]; try discriminate.
  destruct (opt_is_object opts) eqn:Hobj; [|discriminate]. cbn [negb] in Hmw.
  exists s.
  assert (Hs : s <> "") by (now apply truthy_string).
  destruct (opt_setHeaders opts) as [v|f|] eqn:Hsh; cbn [arg_truthy] in *.
  - destruct (toBoolean v) eqn:Hv; [discriminate|].
    destruct (opt_maxage_readonly opts); [discriminate|].
    destruct (opt_root_readonly opts); [discriminate|].
    injection Hmw as <-. exists None. repeat split; try assumption; try tauto.
    all: discriminate.
  - destruct (opt_maxage_readonly opts); [discriminate|].
    destruct (opt_root_readonly opts); [discriminate|].
    injection Hmw as <-. exists (Some f).
    repeat split; try assumption; try congruence; discriminate.
  - discriminate.
Qed.

(** The ways the call fails, in the order the function meets them: a
    [root] that counts as false (absent, empty string); a [root] that
    is no string; an [options] value that counts as true and is no
    object; a [setHeaders] option that counts as true and is no
    function; a [maxage], then a [root], property of [options] that
    cannot be assigned.  For options whose properties are plain values,
    every other call returns a middleware. *)
Theorem createMiddleware_errors resolve rootArg options failure :
  let opts := match options with Some o => o | None => no_options end in
  let setHeaders := opt_setHeaders opts in
  let string_root := exists s, rootArg = Prim (JsString s) /\ s <> "" in
  let callback_ok :=
    arg_truthy setHeaders = false \/ exists f, setHeaders = Func f in
  createMiddleware resolve rootArg options = inl failure <->
  (arg_truthy rootArg = false /\ failure = TypeError "root path required")
  \/ (arg_truthy rootArg = true /\ (forall s, rootArg <> Prim (JsString s))
      /\ failure = TypeError "root path must be a string")
  \/ (string_root /\ opt_is_object opts = false /\ failure = NotAnObject)
  \/ (string_root /\ opt_is_object opts = true
      /\ arg_truthy setHeaders = true /\ (forall f, setHeaders <> Func f)
      /\ failure = TypeError "option setHeaders must be function")
  \/ (string_root /\ opt_is_object opts = true /\ callback_ok
      /\ opt_maxage_readonly opts = true /\ failure = ReadOnly "maxage")
  \/ (string_root /\ opt_is_object opts = true /\ callback_ok
      /\ opt_maxage_readonly opts = false /\ opt_root_readonly opts = true
      /\ failure = ReadOnly "root").
Proof.
  intros opts setHeaders string_root callback_ok.
  subst callback_ok string_root setHeaders.
  unfold createMiddleware. fold opts.
  remember (opt_setHeaders opts) as sh eqn:Hsh.
  destruct (arg_truthy rootArg) eqn:Hroot; cbn [negb].
  - destruct rootArg as [[| |b|n|s]|f|];
      try (split;
           [ intros [= <-]; right; left; repeat split; congruence
           | intros [[[=] _]|[(_ & _ & ->)|H]]; [reflexivity|];
             exfalso;
             destruct H as [H|[H|[H|H]]];
             destruct H as ((s' & [=] & _) & _) ]).
    assert (Hs : s <> "") by (now apply truthy_string).
    assert (Hsr : exists s0, Prim (JsString s) = Prim (JsString s0) /\ s0 <> "")
      by (exists s; now split).
    split.
    + intros H. right. right.
      destruct (opt_is_object opts) eqn:Hobj; cbn [negb] in H.
      2:{ injection H as <-. left. repeat split; auto. }
      right.
      destruct sh as [v|f|]; cbn [arg_truthy] in *.
      * destruct (toBoolean v) eqn:Hv.
        -- injection H as <-. left. repeat split; auto; discriminate.
        -- right.
           assert (Hok : false = false \/ exists f, Prim v = Func f)
             by (now left).
           destruct (opt_maxage_readonly opts) eqn:Hm.
           ++ injection H as <-. left. repeat split; auto.
           ++ destruct (opt_root_readonly opts) eqn:Hr; [|discriminate].
              injection H as <-. right. repeat split; auto.
      * right.
        assert (Hok : true = false \/ exists f0, Func f = Func f0)
          by (right; now exists f).
        destruct (opt_maxage_readonly opts) eqn:Hm.
        -- injection H as <-. left. repeat split; auto.
        -- destruct (opt_root_readonly opts) eqn:Hr; [|discriminate].
           injection H as <-. right. repeat split; auto.
      * injection H as <-. left. repeat split; auto; discriminate.
    + intros [[[=] _]|[(_ & Hno & _)|H]]; [now destruct (Hno s)|].
      destruct H as [(_ & Hobj & ->)|H]; [now rewrite Hobj|].
      destruct H as [(_ & Hobj & Htrue & Hnf & ->)|H].
      { rewrite Hobj. cbn [negb].
        destruct sh as [v|f|]; cbn [arg_truthy] in *.
        - now rewrite Htrue.
        - now destruct (Hnf f).
        - reflexivity. }
      assert (Hshape : exists m r,
                 opt_is_object opts = true
                 /\ (arg_truthy sh = false \/ exists f, sh = Func f)
                 /\ opt_maxage_readonly opts = m
                 /\ opt_root_readonly opts = r
                 /\ (m = true /\ failure = ReadOnly "maxage"
                     \/ m = false /\ r = true /\ failure = ReadOnly "root")).
      { destruct H as [(_ & Hobj & Hok & Hm & ->)|(_ & Hobj & Hok & Hm & Hr & ->)].
        - exists true, (opt_root_readonly opts). repeat split; auto.
        - exists false, true. repeat split; auto. }
      destruct Hshape as (m & r & Hobj & Hok & Hm & Hr & Hcase).
      rewrite Hobj. cbn [negb]. rewrite Hm, Hr.
      destruct Hok as [Hfalse|[f Hf]].
      * destruct sh as [v|f|]; cbn [arg_truthy] in Hfalse |- *;
          [rewrite Hfalse | discriminate | discriminate].
        destruct Hcase as [[-> ->]|(-> & -> & ->)]; reflexivity.
      * rewrite Hf.
        destruct Hcase as [[-> ->]|(-> & -> & ->)]; reflexivity.
  - split.
    + intros [= <-]. now left.
    + intros [[_ ->]|[([=] & _)|H]]; [reflexivity|].
      exfalso.
      assert (Hsr : exists s, rootArg = Prim (JsString s) /\ s <> "")
        by (destruct H as [H|[H|[H|H]]]; now destruct H as (Hsr & _)).
      destruct Hsr as (s & -> & Hs).
      cbn [arg_truthy toBoolean] in Hroot. apply truthy_string in Hs. congruence.
Qed.

(** The failures at concrete calls; the checks on [root] come before
    anything is done with [options]. *)
Example createMiddleware_failures :
  createMiddleware (fun p => p) (Prim (JsString "")) (Some primitive_options)
  = inl (TypeError "root path required")
  /\ createMiddleware (fun p => p) (Prim (JsNum (Finite 1))) (Some primitive_options)
     = inl (TypeError "root path must be a string")
  /\ createMiddleware (fun p => p) (Prim (JsString "/var/www"))
       (Some primitive_options)
     = inl NotAnObject
  /\ createMiddleware (fun p => p) (Prim (JsString "/var/www"))
       (Some frozen_options)
     = inl (ReadOnly "maxage").
Proof. repeat split. Qed.

(** On success: fall-through and redirect are off only for the value
    [false] itself, precompressed serving is on only for the value
    [true] itself, the root is the resolved string, and the callback is
    kept exactly when the option is a function. *)
Theorem createMiddleware_flags resolve rootArg options mw :
  createMiddleware resolve rootArg options = inr mw ->
  let opts := match options with Some o => o | None => no_options end in
  let cfg := mw_config mw in
  (fallthrough cfg = false <-> opt_fallthrough opts = Prim (JsBool false))
  /\ (redirect cfg = false <-> opt_redirect opts = Prim (JsBool false))
  /\ (preferPrecompressed cfg = true
      <-> opt_preferPrecompressed opts = Prim (JsBool true))
  /\ (exists s, rootArg = Prim (JsString s) /\ s <> ""
                /\ root cfg = resolve s)
  /\ (forall f, setHeaders cfg = Some f <-> opt_setHeaders opts = Func f)
  /\ (setHeaders cfg = None <-> arg_truthy (opt_setHeaders opts) = false).
Proof.
  intros Hmw opts cfg. subst cfg.
  destruct (createMiddleware_success _ _ _ _ Hmw)
    as (s & callback & Hroot & Hs & _ & _ & _ & Hsome & Hnone & ->).
  fold opts in Hsome, Hnone |- *.
  cbn [mw_config fallthrough redirect preferPrecompressed root setHeaders].
  rewrite !negb_false_iff, !is_bool_spec.
  repeat split; try tauto; try apply Hsome; try apply Hnone.
  exists s. now repeat split.
Qed.

(** On success the [maxage] handed to the engine is the [maxage]
    option when it counts as true, else the [maxAge] option when that
    counts as true, else the number 0: it is never another value that
    counts as false. *)
Theorem createMiddleware_maxage resolve root options mw :
  createMiddleware resolve root options = inr mw ->
  let opts := match options with Some o => o | None => no_options end in
  (arg_truthy (opt_maxage opts) = true -> mw_maxage mw = opt_maxage opts)
  /\ (arg_truthy (opt_maxage opts) = false ->
      arg_truthy (opt_maxAge opts) = true -> mw_maxage mw = opt_maxAge opts)
  /\ (arg_truthy (opt_maxage opts) = false ->
      arg_truthy (opt_maxAge opts) = false ->
      mw_maxage mw = Prim (JsNum (Finite 0)))
  /\ (arg_truthy (mw_maxage mw) = true
      \/ mw_maxage mw = Prim (JsNum (Finite 0))).
Proof.
  intros Hmw opts.
  destruct (createMiddleware_success _ _ _ _ Hmw)
    as (s & callback & _ & _ & _ & _ & _ & _ & _ & ->).
  fold opts. cbn [mw_maxage]. unfold js_or.
  destruct (arg_truthy (opt_maxage opts)) eqn:Ha.
  - rewrite Ha. repeat split; try discriminate; auto.
  - destruct (arg_truthy (opt_maxAge opts)) eqn:Hb.
    + repeat split; try discriminate; auto.
    + repeat split; try discriminate; auto.
Qed.

(** ** The pool of options objects: what it holds *)










(** ** The middleware on GET and HEAD, and its listeners over a whole
    request *)

Section Requests.
Context {env : Env}.

(** What the middleware does with a GET or a HEAD. *)
Lemma serveStatic_get cfg req res0 cache :
  req_method req = "GET" \/ req_method req = "HEAD" ->
  serveStatic cfg req res0 cache
  = let r := getCachedPath (derivedPath req) (root cfg) cache in
    let negotiated :=
      if preferPrecompressed cfg
      then negotiate (fst r) (req_acceptEncoding req) (root cfg)
      else None in
    (snd r,
     Piped (initial res0 (negb (fallthrough cfg)))
           {| sv_path := match negotiated with
                         | Some (p, _) => if truthy p then p else fst r
                         | None => fst r
                         end;
              sv_negotiated := negotiated |}).
Proof.
  intros Hm. unfold serveStatic, derivedPath.
  replace (negb (String.eqb (req_method req) "GET")
           && negb (String.eqb (req_method req) "HEAD")) with false
    by (destruct Hm as [-> | ->]; reflexivity).
  destruct (getCachedPath _ _ _) as [cachedPath pc]. reflexivity.
Qed.

(** A GET or HEAD always reaches the engine: the middleware itself
    calls [next] never and leaves the response as it was, and the only
    thing it changes is the cache, by one call for the derived path. *)
Theorem serveStatic_pipes cfg req res0 cache :
  req_method req = "GET" \/ req_method req = "HEAD" ->
  exists sv,
    serveStatic cfg req res0 cache
    = (snd (getCachedPath (derivedPath req) (root cfg) cache),
       Piped (initial res0 (negb (fallthrough cfg))) sv)
    /\ res (initial res0 (negb (fallthrough cfg))) = res0
    /\ nextCalls (initial res0 (negb (fallthrough cfg))) = [].
Proof.
  intros Hm. rewrite (serveStatic_get _ _ _ _ Hm). cbv zeta.
  eexists. repeat split.
Qed.

(** No request makes the cache exceed its bound or hold a key twice. *)
Theorem serveStatic_keeps_cache_bounded cfg req res0 cache :
  cache_inv cache -> cache_inv (fst (serveStatic cfg req res0 cache)).
Proof.
  intros Hinv. unfold serveStatic.
  destruct (negb (String.eqb (req_method req) "GET")
            && negb (String.eqb (req_method req) "HEAD")).
  - now destruct (fallthrough cfg).
  - pose proof (getCachedPath_inv
                  (if String.eqb (url_pathname (req_url req)) "/"
                      && negb (String.eqb
                                 (substr_last (url_pathname (req_originalUrl req)))
                                 "/")
                   then "" else url_pathname (req_url req))
                  (root cfg) cache Hinv) as H.
    destruct (getCachedPath _ _ _) as [cachedPath pc]. exact H.
Qed.

(** Without [preferPrecompressed], and while the cache holds entries of
    this root only, the engine is handed the pathname of the request --
    the empty path when the pathname is [/] and the original URL does
    not end in a slash -- and nothing is negotiated. *)
Theorem serveStatic_sent_path cfg req res0 cache :
  req_method req = "GET" \/ req_method req = "HEAD" ->
  preferPrecompressed cfg = false ->
  single_root (root cfg) cache ->
  exists cache',
    serveStatic cfg req res0 cache
    = (cache',
       Piped (initial res0 (negb (fallthrough cfg)))
             {| sv_path := derivedPath req; sv_negotiated := None |})
    /\ single_root (root cfg) cache'
    /\ (derivedPath req = ""
        \/ derivedPath req = url_pathname (req_url req)).
Proof.
  intros Hm Hpre Hsr. rewrite (serveStatic_get _ _ _ _ Hm). cbv zeta.
  rewrite Hpre.
  destruct (getCachedPath_single_root (derivedPath req) _ _ Hsr) as [Hfst Hsnd].
  rewrite Hfst. eexists. split; [reflexivity|]. split; [exact Hsnd|].
  unfold derivedPath. destruct (_ && _); auto.
Qed.

(** The negotiation is sound: a sibling is chosen only if
    [fs.existsSync] found it and the header contains its token, and the
    [.gz] sibling only if the [.br] sibling was not eligible. *)
Theorem negotiate_sound cachedPath acceptEncoding rootDir p tag :
  negotiate cachedPath acceptEncoding rootDir = Some (p, tag) ->
  let header := match acceptEncoding with Some h => h | None => "" end in
  let candidate := candidateOf cachedPath in
  let br := existsSync (path_join rootDir candidate +:+ ".br") in
  let gz := existsSync (path_join rootDir candidate +:+ ".gz") in
  (p = candidate +:+ ".br" /\ tag = "br" /\ contains header "br" /\ br = true)
  \/ (p = candidate +:+ ".gz" /\ tag = "gzip" /\ contains header "gzip"
      /\ gz = true /\ (~ contains header "br" \/ br = false)).
Proof.
  intros Hneg header candidate br gz.
  assert (Hae : (match acceptEncoding with
                 | Some h => if truthy h then h else ""
                 | None => ""
                 end) = header).
  { subst header. destruct acceptEncoding as [h|]; [|reflexivity].
    unfold truthy. destruct (String.eqb_spec h ""); simpl; congruence. }
  unfold negotiate in Hneg. rewrite Hae in Hneg.
  fold candidate in Hneg. fold br gz in Hneg.
  assert (Hbr : negb (indexOf header "br" =? -1)%Z = true <-> contains header "br")
    by (apply indexOf_contains; discriminate).
  assert (Hgz : negb (indexOf header "gzip" =? -1)%Z = true <-> contains header "gzip")
    by (apply indexOf_contains; discriminate).
  destruct (negb (indexOf header "br" =? -1)%Z) eqn:Ebr.
  - destruct br eqn:Eb; cbn [andb] in Hneg.
    + injection Hneg as <- <-. left. repeat split. now apply Hbr.
    + destruct (negb (indexOf header "gzip" =? -1)%Z) eqn:Egz; [|discriminate].
      destruct gz eqn:Eg; [|discriminate]. cbn [andb] in Hneg.
      injection Hneg as <- <-. right. repeat split; [now apply Hgz | now right].
  - cbn [andb] in Hneg.
    destruct (negb (indexOf header "gzip" =? -1)%Z) eqn:Egz; [|discriminate].
    destruct gz eqn:Eg; [|discriminate]. cbn [andb] in Hneg.
    injection Hneg as <- <-. right. repeat split; [now apply Hgz | left].
    intros Hc. apply Hbr in Hc. discriminate.
Qed.

(** Without [preferPrecompressed] and without a [setHeaders] option, the
    [headers] listener sets [Vary] and changes nothing else of the
    response: no other header, not the status, nothing written. *)
Theorem onHeaders_plain cfg req res0 cache cache' st0 sv filePath stat r :
  serveStatic cfg req res0 cache = (cache', Piped st0 sv) ->
  preferPrecompressed cfg = false -> setHeaders cfg = None ->
  let r' := onHeaders cfg sv filePath stat r in
  getHeader "Vary" r' = Some (HStr "Accept-Encoding")
  /\ (forall name, toLowerCase name <> "vary" ->
      getHeader name r' = getHeader name r)
  /\ res_statusCode r' = res_statusCode r
  /\ res_body r' = res_body r
  /\ res_finished r' = res_finished r.
Proof.
  intros Hserve Hpre Hcb r'.
  assert (Hnone : sv_negotiated sv = None).
  { revert Hserve. unfold serveStatic.
    destruct (negb (String.eqb (req_method req) "GET")
              && negb (String.eqb (req_method req) "HEAD")).
    - destruct (fallthrough cfg); discriminate.
    - destruct (getCachedPath _ _ _) as [cachedPath pc].
      rewrite Hpre. now intros [= _ _ <-]. }
  subst r'. unfold onHeaders. rewrite Hnone, Hcb.
  repeat split.
  - apply getHeader_setHeader_eq.
  - intros name Hname. apply getHeader_setHeader_ne.
    intros Heq. apply Hname. now rewrite <- Heq.
Qed.

Lemma emit_nextCalls cfg sv this ev st :
  nextCalls (emit cfg sv this ev st)
  = nextCalls st
    ++ match ev with
       | Error err =>
           [if forwardError st
               || negb (lessThan (err_statusCode err) (Finite 500))
            then WithError err else NoArg]
       | _ => []
       end.
Proof.
  destruct ev as [| filePath stat | | err]; simpl.
  - rewrite List.app_nil_r. destruct (redirect cfg); [|reflexivity].
    unfold createRedirectDirectoryListener.
    destruct (hasTrailingSlash this); reflexivity.
  - now rewrite List.app_nil_r.
  - rewrite List.app_nil_r. now destruct (fallthrough cfg).
  - unfold error. now destruct (forwardError st || _).
Qed.

(** [next] is called once for each [error] notification and never
    otherwise, whatever the order of the notifications; each call
    carries no argument or the error of one of the notifications. *)
Theorem next_once_per_error cfg sv this evs st :
  exists calls,
    nextCalls (emit_all cfg sv this evs st) = nextCalls st ++ calls
    /\ List.length calls = count_errors evs
    /\ forall a, In a calls ->
         a = NoArg \/ exists err, a = WithError err /\ In (Error err) evs.
Proof.
  unfold emit_all, count_errors. revert st.
  induction evs as [|ev evs IH]; intros st; simpl.
  - exists []. rewrite List.app_nil_r. repeat split. intros a [].
  - destruct (IH (emit cfg sv this ev st)) as (calls & Hcalls & Hlen & Hin).
    rewrite Hcalls, emit_nextCalls, <- List.app_assoc.
    eexists. split; [reflexivity|]. split.
    + rewrite List.length_app, Hlen. now destruct ev.
    + intros a Ha. apply List.in_app_iff in Ha as [Ha|Ha].
      * destruct ev as [| | | err]; try now destruct Ha.
        destruct Ha as [<-|[]].
        destruct (forwardError st || _); [right; exists err; auto | now left].
      * destruct (Hin a Ha) as [->|(err & -> & Herr)]; [now left|].
        right. exists err. auto.
Qed.

(** With fall-through disabled every error of the engine is passed to
    [next], whatever its status and whatever was notified before. *)
Theorem no_fallthrough_forwards_every_error cfg req res0 cache cache' st0 sv
    this evs err :
  serveStatic cfg req res0 cache = (cache', Piped st0 sv) ->
  fallthrough cfg = false ->
  emit cfg sv this (Error err) (emit_all cfg sv this evs st0)
  = next (WithError err) (emit_all cfg sv this evs st0).
Proof.
  intros Hserve Hft. apply serveStatic_piped in Hserve. subst st0.
  simpl. unfold error. rewrite forwardError_emit_all. cbn [initial forwardError].
  now rewrite Hft.
Qed.

Lemma emit_not_found_policy cfg sv this ev st :
  redirect cfg = false -> setHeaders cfg = None ->
  res_statusCode (res (emit cfg sv this ev st)) = res_statusCode (res st)
  /\ res_body (res (emit cfg sv this ev st)) = res_body (res st)
  /\ res_finished (res (emit cfg sv this ev st)) = res_finished (res st)
  /\ streamErrors (emit cfg sv this ev st)
     = streamErrors st
       ++ match ev with Directory => [404%N] | _ => [] end.
Proof.
  intros Hrd Hcb. destruct ev as [| filePath stat | | err]; simpl.
  - rewrite Hrd. repeat split.
  - rewrite List.app_nil_r. unfold onHeaders. rewrite Hcb.
    destruct (sv_negotiated sv) as [[p tag]|]; [|repeat split].
    destruct (truthy p && truthy tag); [|repeat split].
    destruct (mime_lookup (stripCompressedSuffix p)) as [type|];
      [destruct (truthy type)|]; repeat split.
  - rewrite List.app_nil_r. destruct (fallthrough cfg); repeat split.
  - rewrite List.app_nil_r. unfold error.
    destruct (forwardError st || _); repeat split.
Qed.

(** Under the not-found policy and without a [setHeaders] option the
    listeners never end the response, never set its status and never
    write to it; each [directory] notification is answered by one
    [this.error(404)], also when the URL has no trailing slash. *)
Theorem not_found_policy cfg sv this evs st :
  redirect cfg = false -> setHeaders cfg = None ->
  let st' := emit_all cfg sv this evs st in
  res_statusCode (res st') = res_statusCode (res st)
  /\ res_body (res st') = res_body (res st)
  /\ res_finished (res st') = res_finished (res st)
  /\ streamErrors st'
     = streamErrors st ++ List.repeat 404%N (count_directory evs).
Proof.
  intros Hrd Hcb. cbv zeta. unfold emit_all, count_directory. revert st.
  induction evs as [|ev evs IH]; intros st; simpl.
  - rewrite List.app_nil_r. repeat split.
  - destruct (IH (emit cfg sv this ev st)) as (H1 & H2 & H3 & H4).
    destruct (emit_not_found_policy cfg sv this ev st Hrd Hcb)
      as (E1 & E2 & E3 & E4).
    rewrite H1, H2, H3, H4, E1, E2, E3, E4, <- List.app_assoc.
    repeat split. now destruct ev.
Qed.

(** The middleware built by the exported function defers a method other
    than GET and HEAD to [next] unless the [fallthrough] option is the
    value [false] itself: [0], [null] or a missing option keep
    fall-through on. *)
Theorem created_middleware_defers_other_methods resolve rootArg options mw
    req res0 cache :
  createMiddleware resolve rootArg options = inr mw ->
  opt_fallthrough (match options with Some o => o | None => no_options end)
  <> Prim (JsBool false) ->
  req_method req <> "GET" -> req_method req <> "HEAD" ->
  serveStatic (mw_config mw) req res0 cache
  = (cache, Returned (next NoArg (initial res0 false))).
Proof.
  intros Hmw Hopt Hget Hhead.
  assert (Hft : fallthrough (mw_config mw) = true).
  { destruct (fallthrough (mw_config mw)) eqn:E; [reflexivity|].
    exfalso. apply Hopt.
    destruct (createMiddleware_success _ _ _ _ Hmw)
      as (s & callback & _ & _ & _ & _ & _ & _ & _ & ->).
    apply is_bool_spec.
    cbn [mw_config fallthrough] in E. now apply negb_false_iff in E. }
  unfold serveStatic. apply String.eqb_neq in Hget, Hhead.
  now rewrite Hget, Hhead, Hft.
Qed.

End Requests.

(** ** The redirect document and the [forwardError] flag *)

Lemma append_assoc (a b c : string) : (a +:+ b) +:+ c = a +:+ (b +:+ c).
Proof.
  induction a as [|x a IH]; [reflexivity|].
  change (String x ((a +:+ b) +:+ c) = String x (a +:+ (b +:+ c))).
  now f_equal.
Qed.

(** The document is 122 bytes of markup around the title and the body,
    both put in as they are (escaping is left to the caller), so the
    [Content-Length] of a redirect is 148 plus the length of the escaped
    location. *)
Theorem createHtmlDocument_length (title body : string) :
  byteLength (createHtmlDocument title body)
  = (122 + byteLength title + byteLength body)%N
  /\ contains (createHtmlDocument title body) title
  /\ contains (createHtmlDocument title body) body
  /\ byteLength (createHtmlDocument "Redirecting" ("Redirecting to " +:+ body))
     = (148 + byteLength body)%N.
Proof.
  assert (Hlen : forall t b,
             byteLength (createHtmlDocument t b)
             = (122 + byteLength t + byteLength b)%N).
  { intros t b. unfold byteLength, createHtmlDocument, LF, DQUOTE.
    rewrite !length_append. cbn [String.length]. lia. }
  split; [apply Hlen|]. split; [|split].
  - exists ("<!DOCTYPE html>" +:+ LF +:+
            "<html lang=" +:+ DQUOTE +:+ "en" +:+ DQUOTE +:+ ">" +:+ LF +:+
            "<head>" +:+ LF +:+
            "<meta charset=" +:+ DQUOTE +:+ "utf-8" +:+ DQUOTE +:+ ">" +:+ LF +:+
            "<title>"),
           ("</title>" +:+ LF +:+ "</head>" +:+ LF +:+ "<body>" +:+ LF +:+
            "<pre>" +:+ body +:+ "</pre>" +:+ LF +:+ "</body>" +:+ LF +:+
            "</html>" +:+ LF).
    unfold createHtmlDocument. now rewrite !append_assoc.
  - exists ("<!DOCTYPE html>" +:+ LF +:+
            "<html lang=" +:+ DQUOTE +:+ "en" +:+ DQUOTE +:+ ">" +:+ LF +:+
            "<head>" +:+ LF +:+
            "<meta charset=" +:+ DQUOTE +:+ "utf-8" +:+ DQUOTE +:+ ">" +:+ LF +:+
            "<title>" +:+ title +:+ "</title>" +:+ LF +:+
            "</head>" +:+ LF +:+ "<body>" +:+ LF +:+ "<pre>"),
           ("</pre>" +:+ LF +:+ "</body>" +:+ LF +:+ "</html>" +:+ LF).
    unfold createHtmlDocument. now rewrite !append_assoc.
  - rewrite Hlen. unfold byteLength. rewrite length_append.
    cbn [String.length]. lia.
Qed.

Section Flag.
Context {env : Env}.

(** Nothing sets [forwardError] back: once errors are forwarded, they
    are forwarded for the rest of the request. *)
Theorem forwardError_never_reset cfg sv this evs st :
  forwardError st = true ->
  forwardError (emit_all cfg sv this evs st) = true
  /\ forall err,
       emit cfg sv this (Error err) (emit_all cfg sv this evs st)
       = next (WithError err) (emit_all cfg sv this evs st).
Proof.
  intros Hfwd.
  assert (H : forwardError (emit_all cfg sv this evs st) = true)
    by (now rewrite forwardError_emit_all, Hfwd).
  split; [exact H|]. intros err. simpl. unfold error. now rewrite H.
Qed.

End Flag.

(** ** The further theorems at concrete inputs *)

(** The cache of a thousand paths is within the bound. *)
Lemma pathCache_bounded_witness :
  map_size full_cache <= MAX_CACHE_SIZE /\ List.NoDup (keys full_cache).
Proof.
  apply pathCache_bounded. apply reachable_run_calls, reachable_empty.
Defined.

(** On the cache of a thousand paths a new path evicts [/000]. *)
Lemma getCachedPath_evicts_first_witness :
  getCachedPath "/new" "/srv" full_cache
  = ("/new", List.tl full_cache ++ [(cacheKey "/new" "/srv", "/new")]).
Proof.
  apply (getCachedPath_evicts_first "/new" "/srv" full_cache).
  - apply (reachable_inv full_cache).
    apply reachable_run_calls, reachable_empty.
  - vm_compute. reflexivity.
  - apply Nat.leb_le. vm_compute. reflexivity.
Defined.

(** A call for [/b] leaves the entry of [/a] alone. *)
Lemma getCachedPath_other_keys_witness :
  let c := [(cacheKey "/a" "/srv", "/a")] in
  map_get (cacheKey "/a" "/srv") (snd (getCachedPath "/b" "/srv" c))
  = map_get (cacheKey "/a" "/srv") c.
Proof.
  cbv zeta.
  destruct (getCachedPath_other_keys "/b" "/srv"
              [(cacheKey "/a" "/srv", "/a")] (cacheKey "/a" "/srv"))
    as [H|(_ & Hfull & _)]; [discriminate | exact H |].
  exfalso. apply Nat.leb_le in Hfull. discriminate Hfull.
Defined.

(** [fallthrough: 0] keeps fall-through, [redirect: false] turns the
    redirect off, [preferPrecompressed: 'yes'] turns nothing on. *)
Lemma createMiddleware_flags_witness :
  createMiddleware (fun p => p) (Prim (JsString "/var/www")) (Some demo_options)
  = inr demo_middleware
  /\ (fallthrough (mw_config demo_middleware) = false
      <-> opt_fallthrough demo_options = Prim (JsBool false))
  /\ (redirect (mw_config demo_middleware) = false
      <-> opt_redirect demo_options = Prim (JsBool false)).
Proof.
  split; [reflexivity|].
  destruct (createMiddleware_flags (fun p => p) (Prim (JsString "/var/www"))
              (Some demo_options) demo_middleware eq_refl)
    as (Hft & Hrd & _).
  split; [exact Hft | exact Hrd].
Defined.

(** [maxage: null] gives way to [maxAge: 3600]. *)
Lemma createMiddleware_maxage_witness :
  mw_maxage demo_middleware = opt_maxAge demo_options.
Proof.
  apply (createMiddleware_maxage (fun p => p) (Prim (JsString "/var/www"))
           (Some demo_options) demo_middleware eq_refl); reflexivity.
Defined.




(** [HEAD /a.txt] is piped. *)
Lemma serveStatic_pipes_witness :
  exists sv,
    serveStatic (env := demo_env) www (demo_request "HEAD" "/a.txt" None)
      fresh_response []
    = (snd (getCachedPath (derivedPath (demo_request "HEAD" "/a.txt" None))
              (root www) []),
       Piped (initial fresh_response (negb (fallthrough www))) sv)
    /\ res (initial fresh_response (negb (fallthrough www))) = fresh_response
    /\ nextCalls (initial fresh_response (negb (fallthrough www))) = [].
Proof.
  apply (serveStatic_pipes (env := demo_env) www
           (demo_request "HEAD" "/a.txt" None) fresh_response []).
  right. reflexivity.
Defined.

(** A request on the cache of a thousand paths keeps it within bounds. *)
Lemma serveStatic_keeps_cache_bounded_witness :
  cache_inv (fst (serveStatic (env := demo_env) www
                    (demo_request "GET" "/a.txt" None) fresh_response
                    full_cache)).
Proof.
  apply serveStatic_keeps_cache_bounded.
  apply (reachable_inv full_cache).
  apply reachable_run_calls, reachable_empty.
Defined.

(** At the mount point: pathname [/], original URL [/static]. *)
Lemma serveStatic_sent_path_witness :
  let req := {| req_method := "GET"; req_url := plain_url "/";
                req_originalUrl := plain_url "/static";
                req_acceptEncoding := None |} in
  derivedPath req = ""
  /\ exists cache',
       serveStatic (env := demo_env) www req fresh_response []
       = (cache',
          Piped (initial fresh_response (negb (fallthrough www)))
                {| sv_path := derivedPath req; sv_negotiated := None |})
       /\ single_root (root www) cache'.
Proof.
  cbv zeta. split; [reflexivity|].
  destruct (serveStatic_sent_path (env := demo_env) www
              {| req_method := "GET"; req_url := plain_url "/";
                 req_originalUrl := plain_url "/static";
                 req_acceptEncoding := None |} fresh_response []
              (or_introl eq_refl) eq_refl (fun k v (H : In (k, v) []) => match H with end))
    as (cache' & Hserve & Hsr & _).
  exists cache'. split; [exact Hserve | exact Hsr].
Defined.

(** The [.br] sibling of [app.js] was found and accepted. *)
Lemma negotiate_sound_witness :
  @existsSync demo_env (@path_join demo_env "/var/www" "/app.js" +:+ ".br") = true
  \/ @existsSync demo_env (@path_join demo_env "/var/www" "/app.js" +:+ ".gz") = true.
Proof.
  destruct (negotiate_sound (env := demo_env) "/app.js" (Some "gzip, br")
              "/var/www" "/app.js.br" "br" eq_refl)
    as [(_ & _ & _ & Hbr)|(_ & _ & _ & Hgz & _)];
    [left; exact Hbr | right; exact Hgz].
Defined.

(** A plain file: only [Vary] is set. *)
Lemma onHeaders_plain_witness :
  let r' := onHeaders (env := demo_env) www (served_plain "/a.txt")
              "/var/www/a.txt" {| stat_size := 5 |} fresh_response in
  getHeader "Vary" r' = Some (HStr "Accept-Encoding")
  /\ res_statusCode r' = 200%N.
Proof.
  cbv zeta.
  destruct (onHeaders_plain (env := demo_env) www
              (demo_request "GET" "/a.txt" None) fresh_response []
              [(cacheKey "/a.txt" "/var/www", "/a.txt")]
              (initial fresh_response false) (served_plain "/a.txt")
              "/var/www/a.txt" {| stat_size := 5 |} fresh_response
              eq_refl eq_refl eq_refl)
    as (Hvary & _ & Hstatus & _).
  split; [exact Hvary | exact Hstatus].
Defined.

(** Without fall-through a 404 before any [file] is passed to [next]. *)
Lemma no_fallthrough_forwards_every_error_witness :
  let st0 := initial fresh_response true in
  let err := http_error (JsNum (Finite 404)) in
  emit (env := demo_env) strict (served_plain "/a.txt")
    (demo_stream "/a.txt" false) (Error err)
    (emit_all (env := demo_env) strict (served_plain "/a.txt")
       (demo_stream "/a.txt" false) [] st0)
  = next (WithError err)
      (emit_all (env := demo_env) strict (served_plain "/a.txt")
         (demo_stream "/a.txt" false) [] st0).
Proof.
  exact (no_fallthrough_forwards_every_error (env := demo_env) strict
           (demo_request "GET" "/a.txt" None) fresh_response []
           [(cacheKey "/a.txt" "/var/www", "/a.txt")]
           (initial fresh_response true) (served_plain "/a.txt")
           (demo_stream "/a.txt" false) []
           (http_error (JsNum (Finite 404))) eq_refl eq_refl).
Defined.

(** A directory without trailing slash under the not-found policy. *)
Lemma not_found_policy_witness :
  let st' := emit_all (env := demo_env) strict (served_plain "/dir")
               (demo_stream "/dir" false) [Directory]
               (initial fresh_response true) in
  res_finished (res st') = false /\ streamErrors st' = [404%N].
Proof.
  cbv zeta.
  destruct (not_found_policy (env := demo_env) strict (served_plain "/dir")
              (demo_stream "/dir" false) [Directory]
              (initial fresh_response true) eq_refl eq_refl)
    as (_ & _ & Hfin & Herr).
  split; [exact Hfin | exact Herr].
Defined.

(** The middleware built with [fallthrough: 0] defers a POST. *)
Lemma created_middleware_defers_other_methods_witness :
  serveStatic (env := demo_env) (mw_config demo_middleware)
    (demo_request "POST" "/a.txt" None) fresh_response []
  = ([], Returned (next NoArg (initial fresh_response false))).
Proof.
  apply (created_middleware_defers_other_methods (env := demo_env)
           (fun p => p) (Prim (JsString "/var/www")) (Some demo_options)
           demo_middleware);
    [reflexivity | discriminate | discriminate | discriminate].
Defined.

(** The roots [/srv/a::/b] and [/srv/a] meet in one key. *)
Lemma getCachedPath_keyed_by_concatenation_witness :
  fst (getCachedPath "/b::/c" "/srv/a"
         (snd (getCachedPath "/c" "/srv/a::/b" [])))
  = fst (getCachedPath "/c" "/srv/a::/b" []).
Proof.
  apply (getCachedPath_keyed_by_concatenation "/c" "/srv/a::/b" "/b::/c" "/srv/a").
  reflexivity.
Defined.

(** On the cache of a thousand paths. *)
Lemma getCachedPath_returns_keyed_path_witness :
  exists root',
    cacheKey (fst (getCachedPath "/007" "/srv" full_cache)) root'
    = cacheKey "/007" "/srv".
Proof.
  apply getCachedPath_returns_keyed_path.
  apply reachable_run_calls, reachable_empty.
Defined.

(** Without fall-through the flag is set from the start and stays. *)
Lemma forwardError_never_reset_witness :
  forwardError
    (emit_all (env := demo_env) strict (served_plain "/a.txt")
       (demo_stream "/a.txt" false)
       [Headers "/var/www/a.txt" {| stat_size := 5 |}; File]
       (initial fresh_response true))
  = true.
Proof.
  apply (forwardError_never_reset (env := demo_env) strict
           (served_plain "/a.txt") (demo_stream "/a.txt" false)
           [Headers "/var/www/a.txt" {| stat_size := 5 |}; File]
           (initial fresh_response true)).
  reflexivity.
Defined.
